(** * Game catalog: data loading, relevance scoring, query pipeline, debounce

    A shallow embedding of the game-data layer of the mini game hub
    ([GameDataManager], [Game], and the [Debouncer] of [SearchFilter.js])
    together with the properties the specification states about it.

    Conventions of the embedding:
    - JavaScript strings are [string]s; case folding and the white-space class
      are those of the ASCII range (other code units are left untouched).
    - JavaScript numbers are [number]s: exact rationals, the two infinities and
      NaN.  No rounding is modelled.
    - Exceptions are results in a sum type; [async] functions are run to
      completion, one call after the other (the code awaits each step).
    - Builtins of the host whose behaviour the repository does not fix
      ([JSON.stringify], [JSON.parse], [Date.parse], [localeCompare], the
      printing of numbers) are the fields of a [Host] record. *)

From Stdlib Require Import ZArith QArith Qround Qabs Lqa Lia List Ascii String Bool Permutation Sorted.
From stdpp Require Import gmap strings.

Local Open Scope string_scope.
Local Open Scope Z_scope.
Import ListNotations.

(** ** Strings *)

Module Str.

(** The white-space class of [String.prototype.trim] and of [\s], restricted
    to ASCII: TAB, LF, VT, FF, CR and SPACE. *)
Definition is_ws (c : ascii) : bool :=
  let n := nat_of_ascii c in
  ((9 <=? n)%nat && (n <=? 13)%nat) || (n =? 32)%nat.

Definition lower_char (c : ascii) : ascii :=
  let n := nat_of_ascii c in
  if ((65 <=? n)%nat && (n <=? 90)%nat)%bool then ascii_of_nat (n + 32) else c.

Fixpoint toLowerCase (s : string) : string :=
  match s with
  | EmptyString => EmptyString
  | String c r => String (lower_char c) (toLowerCase r)
  end.

Fixpoint trimStart (s : string) : string :=
  match s with
  | EmptyString => EmptyString
  | String c r => if is_ws c then trimStart r else s
  end.

Fixpoint trimEnd (s : string) : string :=
  match s with
  | EmptyString => EmptyString
  | String c r =>
      match trimEnd r with
      | EmptyString => if is_ws c then EmptyString else String c EmptyString
      | r' => String c r'
      end
  end.

Definition trim (s : string) : string := trimEnd (trimStart s).

Definition is_empty (s : string) : bool :=
  match s with EmptyString => true | _ => false end.

(** [s.startsWith(p)] *)
Fixpoint startsWith (s p : string) : bool :=
  match p, s with
  | EmptyString, _ => true
  | String _ _, EmptyString => false
  | String b p', String a s' => if Ascii.eqb a b then startsWith s' p' else false
  end.

(** [s.includes(p)] *)
Fixpoint includes (s p : string) : bool :=
  startsWith s p ||
  match s with
  | EmptyString => false
  | String _ s' => includes s' p
  end.

Definition eqb (a b : string) : bool := String.eqb a b.

(** [s.split(/\s+/).filter(word => word.length > 0)]: the maximal runs of
    characters that are not white space.  [cur] is the run being read. *)
Fixpoint split_runs (s cur : string) : list string :=
  match s with
  | EmptyString => [cur]
  | String c r =>
      if is_ws c then cur :: split_runs r EmptyString
      else split_runs r (cur ++ String c EmptyString)
  end.

Definition words (s : string) : list string :=
  List.filter (fun w => negb (is_empty w)) (split_runs s EmptyString).

End Str.

(** ** Numbers and values *)

(** A JavaScript number: a rational, an infinity ([Inf true] is [-Infinity])
    or NaN. *)
Inductive number : Type :=
  | NaN
  | Inf (negative : bool)
  | Fin (q : Q).

Module Num.

Definition zero : number := Fin 0.
Definition of_Z (z : Z) : number := Fin (inject_Z z).

(** [ToBoolean] on a number: false for 0 and NaN. *)
Definition truthy (n : number) : bool :=
  match n with
  | NaN => false
  | Inf _ => true
  | Fin q => negb (Qeq_bool q 0)
  end.

Definition sub (a b : number) : number :=
  match a, b with
  | NaN, _ | _, NaN => NaN
  | Inf s, Inf t => if Bool.eqb s t then NaN else Inf s
  | Inf s, Fin _ => Inf s
  | Fin _, Inf t => Inf (negb t)
  | Fin x, Fin y => Fin (x - y)
  end.

Definition neg (a : number) : number :=
  match a with
  | NaN => NaN
  | Inf s => Inf (negb s)
  | Fin x => Fin (- x)
  end.

(** [a <= b]; false as soon as one side is NaN. *)
Definition leb (a b : number) : bool :=
  match a, b with
  | NaN, _ | _, NaN => false
  | Inf true, _ => true
  | _, Inf false => true
  | Inf false, _ => false
  | _, Inf true => false
  | Fin x, Fin y => Qle_bool x y
  end.

(** [a >= b] *)
Definition geb (a b : number) : bool := leb b a.

(** [a > 0] *)
Definition pos (a : number) : bool :=
  match a with
  | NaN => false
  | Inf s => negb s
  | Fin x => negb (Qle_bool x 0)
  end.

(** The order as a proposition, for statements. *)
Definition le (a b : number) : Prop := leb a b = true.

(** rounding toward zero, [ToIntegerOrInfinity] on a finite number *)
Definition trunc (q : Q) : Z :=
  if Qle_bool 0 q then Qfloor q else Qceiling q.

End Num.

#[local] Set Warnings "-register-all".

(** A value as [JSON.parse] builds it, plus [undefined] for what a property
    access on a missing key gives. *)
Inductive value : Type :=
  | VUndefined
  | VNull
  | VBool (b : bool)
  | VNum (n : number)
  | VStr (s : string)
  | VArr (items : list value)
  | VObj (props : list (string * value)).

(** [ToBoolean] *)
Definition truthy (v : value) : bool :=
  match v with
  | VUndefined | VNull => false
  | VBool b => b
  | VNum n => Num.truthy n
  | VStr s => negb (Str.is_empty s)
  | VArr _ | VObj _ => true
  end.

(** [a || b] *)
Definition or_else (a b : value) : value := if truthy a then a else b.

Fixpoint assoc (k : string) (props : list (string * value)) : value :=
  match props with
  | [] => VUndefined
  | (k', v) :: rest =>
      match assoc k rest with
      | VUndefined => if String.eqb k k' then v else VUndefined
      | later => later
      end
  end.

(** A [Date] object: its time value in milliseconds, [None] for an invalid
    date. *)
Record Date : Type := { time : option Z }.

(** Exceptions.  [GameDataError cause] is the error [loadGames] throws, its
    message being "Failed to load games: " followed by the message of
    [cause]. *)
Inductive exn : Type :=
  | Error (message : string)
  | TypeError
  | SyntaxError
  | GameDataError (cause : exn).

Inductive result (A : Type) : Type :=
  | Ok (a : A)
  | Throw (e : exn).
Arguments Ok {A} a.
Arguments Throw {A} e.

Definition bind {A B} (r : result A) (k : A -> result B) : result B :=
  match r with
  | Ok a => k a
  | Throw e => Throw e
  end.

Notation "'let*' x ':=' r 'in' k" := (bind r (fun x => k))
  (at level 10, x name, r at level 100, k at level 200).

Fixpoint mapM {A B} (f : A -> result B) (l : list A) : result (list B) :=
  match l with
  | [] => Ok []
  | a :: rest =>
      let* b := f a in
      let* bs := mapM f rest in
      Ok (b :: bs)
  end.

(** ** The Game model *)

Module Game.

Record t : Type := {
  id : value;
  title : value;
  description : value;
  fullDescription : value;
  genre : list value;
  rating : number;
  reviewCount : Z;
  thumbnail : value;
  screenshots : list value;
  systemRequirements : value;
  officialWebsite : value;
  downloadLinks : list value;
  releaseDate : option Date;
  developer : value;
  tags : list value
}.

End Game.

Abbreviation Game := Game.t.

(** ** Host builtins *)

(** The builtins the code calls and whose results the repository does not
    determine.  [localeCompare a b] is negative, zero or positive. *)
Class Host : Type := {
  Number_toString : number -> string;
  StringToNumber : string -> number;
  Date_parse : string -> option Z;
  Date_toISOString : Z -> string;
  localeCompare : string -> string -> number;
  JSON_parse : string -> option value
}.

Module Parse.

Definition digit (c : ascii) : option Z :=
  let n := nat_of_ascii c in
  if ((48 <=? n)%nat && (n <=? 57)%nat)%bool then Some (Z.of_nat (n - 48)) else None.

Definition hex_digit (c : ascii) : option Z :=
  let n := nat_of_ascii c in
  if ((48 <=? n)%nat && (n <=? 57)%nat)%bool then Some (Z.of_nat (n - 48))
  else if ((97 <=? n)%nat && (n <=? 102)%nat)%bool then Some (Z.of_nat (n - 87))
  else if ((65 <=? n)%nat && (n <=? 70)%nat)%bool then Some (Z.of_nat (n - 55))
  else None.

(** Reads the longest run of digits in base [base]: its value (continuing
    [acc]), the number of digits read, and what follows. *)
Fixpoint digits (dig : ascii -> option Z) (base : Z) (s : string) (acc : Z) (n : nat)
  : Z * nat * string :=
  match s with
  | EmptyString => (acc, n, s)
  | String c r =>
      match dig c with
      | Some d => digits dig base r (acc * base + d) (S n)
      | None => (acc, n, s)
      end
  end.

(** An optional sign; [true] for a minus. *)
Definition sign (s : string) : bool * string :=
  match s with
  | String "-" r => (true, r)
  | String "+" r => (false, r)
  | _ => (false, s)
  end.

(** The exponent part [e[+-]ddd], 0 when it is absent or has no digit. *)
Definition exponent (s : string) : Z :=
  match s with
  | String c r =>
      if (Ascii.eqb c "e" || Ascii.eqb c "E")%bool then
        let '(neg, r1) := sign r in
        let '(v, n, _) := digits digit 10 r1 0 0%nat in
        match n with
        | O => 0
        | _ => if neg then - v else v
        end
      else 0
  | EmptyString => 0
  end.

(** [parseFloat] on a string: the longest prefix, after leading white
    space, that is a decimal literal. *)
Definition parseFloat_str (s : string) : number :=
  let '(neg, s1) := sign (Str.trimStart s) in
  if Str.startsWith s1 "Infinity" then Inf neg
  else
    let '(ip, ni, s2) := digits digit 10 s1 0 0%nat in
    let '(m, nf, s3) :=
      match s2 with
      | String "." r => digits digit 10 r ip 0%nat
      | _ => (ip, 0%nat, s2)
      end in
    match ni, nf with
    | O, O => NaN
    | _, _ =>
        let e := exponent s3 - Z.of_nat nf in
        let q := (inject_Z m * Qpower (inject_Z 10) e)%Q in
        Fin (if neg then (- q)%Q else q)
    end.

(** [parseInt] on a string.  With [radix10] the radix argument is 10; without
    it the radix is absent, and a [0x] prefix selects base 16.  [None] is NaN. *)
Definition parseInt_str (radix10 : bool) (s : string) : option Z :=
  let '(neg, s1) := sign (Str.trimStart s) in
  let hex :=
    (negb radix10 && (Str.startsWith s1 "0x" || Str.startsWith s1 "0X"))%bool in
  let '(v, n, _) :=
    if hex then
      match s1 with
      | String _ (String _ r) => digits hex_digit 16 r 0 0%nat
      | _ => (0, 0%nat, s1)
      end
    else digits digit 10 s1 0 0%nat in
  match n with
  | O => None
  | _ => Some (if neg then - v else v)
  end.

End Parse.

Section Construction.

Context {host : Host}.

(** [ToString]; an array prints its elements separated by commas, with
    nothing for [null] and [undefined]. *)
Fixpoint ToString (v : value) : string :=
  match v with
  | VUndefined => "undefined"
  | VNull => "null"
  | VBool true => "true"
  | VBool false => "false"
  | VNum n => Number_toString n
  | VStr s => s
  | VArr items =>
      String.concat ","
        (List.map (fun x => match x with
                            | VUndefined | VNull => ""
                            | _ => ToString x
                            end) items)
  | VObj _ => "[object Object]"
  end.

(** [parseFloat(v)].  A number is printed and read back; printing a number
    and reading it back gives the number, so the host's printer is not
    consulted there. *)
Definition parseFloat (v : value) : number :=
  match v with
  | VNum n => n
  | _ => Parse.parseFloat_str (ToString v)
  end.

(** [parseInt(v)], without a radix *)
Definition parseInt (v : value) : option Z :=
  Parse.parseInt_str false (ToString v).

(** [TimeClip] *)
Definition TimeClip (n : number) : option Z :=
  match n with
  | Fin q =>
      if Qle_bool (Qabs q) (inject_Z 8640000000000000) then Some (Num.trunc q)
      else None
  | _ => None
  end.

(** [new Date(v)] with one argument: a string (or an object, through its
    string form) is parsed, anything else is taken as a number of
    milliseconds. *)
Definition new_Date (v : value) : Date :=
  match v with
  | VStr s => {| time := Date_parse s |}
  | VArr _ | VObj _ => {| time := Date_parse (ToString v) |}
  | VNum n => {| time := TimeClip n |}
  | VBool b => {| time := Some (if b then 1 else 0) |}
  | VNull => {| time := Some 0 |}
  | VUndefined => {| time := None |}
  end.

(** [Array.isArray(v) ? v : []] *)
Definition array_or_empty (v : value) : list value :=
  match v with
  | VArr items => items
  | _ => []
  end.

(** [data.k]: a property of an object; a primitive or an array has none of
    the properties read here; reading from [null] or [undefined] throws. *)
Definition prop (data : value) (k : string) : result value :=
  match data with
  | VUndefined | VNull => Throw TypeError
  | VObj props => Ok (assoc k props)
  | _ => Ok VUndefined
  end.

(** A property read where reading cannot throw any more *)
Definition get (data : value) (k : string) : value :=
  match prop data k with
  | Ok v => v
  | Throw _ => VUndefined
  end.

(** The constructor of [Game]. *)
Definition new_Game (data : value) : result Game :=
  let* id := prop data "id" in
  let* title := prop data "title" in
  if (negb (truthy id) || negb (truthy title))%bool then
    Throw (Error "Game data must include id and title")
  else
    let get := get data in
    Ok {| Game.id := id;
          Game.title := title;
          Game.description := or_else (get "description") (VStr "");
          Game.fullDescription :=
            or_else (or_else (get "fullDescription") (get "description")) (VStr "");
          Game.genre := array_or_empty (get "genre");
          Game.rating :=
            (let r := parseFloat (get "rating") in
             if Num.truthy r then r else Num.zero);
          Game.reviewCount :=
            match parseInt (get "reviewCount") with
            | Some n => n
            | None => 0
            end;
          Game.thumbnail := or_else (get "thumbnail") (VStr "images/placeholder.jpg");
          Game.screenshots := array_or_empty (get "screenshots");
          Game.systemRequirements := or_else (get "systemRequirements") (VObj []);
          Game.officialWebsite := or_else (get "officialWebsite") (VStr "");
          Game.downloadLinks := array_or_empty (get "downloadLinks");
          Game.releaseDate :=
            (let d := get "releaseDate" in
             if truthy d then Some (new_Date d) else None);
          Game.developer := or_else (get "developer") (VStr "");
          Game.tags := array_or_empty (get "tags") |}.

End Construction.

(** ** Arrays *)

Section Arrays.

Context {A : Type}.

(** [Array.prototype.sort] with a comparator that may throw: a stable
    insertion sort.  [x] moves behind [y] only when [cmp x y] is positive; a
    NaN counts as zero.  The sort of the language is stable, and with a
    consistent comparator every stable sort returns this list. *)
Fixpoint sort_insert (cmp : A -> A -> result number) (x : A) (l : list A)
  : result (list A) :=
  match l with
  | [] => Ok [x]
  | y :: ys =>
      let* c := cmp x y in
      if Num.pos c then
        let* r := sort_insert cmp x ys in Ok (y :: r)
      else Ok (x :: y :: ys)
  end.

Fixpoint Array_sort (cmp : A -> A -> result number) (l : list A) : result (list A) :=
  match l with
  | [] => Ok []
  | x :: xs =>
      let* s := Array_sort cmp xs in
      sort_insert cmp x s
  end.

(** [Array.prototype.filter] with a predicate that may throw *)
Fixpoint Array_filter (p : A -> result bool) (l : list A) : result (list A) :=
  match l with
  | [] => Ok []
  | x :: xs =>
      let* keep := p x in
      let* r := Array_filter p xs in
      Ok (if keep then x :: r else r)
  end.

(** [Array.prototype.some]: stops at the first hit *)
Fixpoint Array_some (p : A -> result bool) (l : list A) : result bool :=
  match l with
  | [] => Ok false
  | x :: xs =>
      let* hit := p x in
      if hit then Ok true else Array_some p xs
  end.

End Arrays.

(** ** Relevance scoring and the query pipeline *)

(** [v.toLowerCase()]: only a string has the method *)
Definition toLowerCase (v : value) : result string :=
  match v with
  | VStr s => Ok (Str.toLowerCase s)
  | _ => Throw TypeError
  end.

(** [words.forEach(word => { if (field.includes(word)) score += w })] *)
Definition add_words (field : string) (w : Z) (words : list string) (score : Z) : Z :=
  fold_left (fun sc word => if Str.includes field word then sc + w else sc) words score.

(** The loop over the genres, and over the tags: [exact] for equality with
    the full term, [part] for containing it, [w] for each contained word. *)
Definition add_values (exact part w : Z) (searchTerm : string) (searchWords : list string)
    (values : list string) (score : Z) : Z :=
  fold_left
    (fun sc v =>
       let sc :=
         if Str.eqb v searchTerm then sc + exact
         else if Str.includes v searchTerm then sc + part
         else sc in
       add_words v w searchWords sc)
    values score.

(** The score on the lower-cased fields *)
Definition score_fields (title description fullDescription developer : string)
    (genres tags : list string) (searchTerm : string) (searchWords : list string) : Z :=
  let score := 0 in
  let score :=
    if Str.eqb title searchTerm then score + 100
    else if Str.startsWith title searchTerm then score + 80
    else if Str.includes title searchTerm then score + 60
    else score in
  let score := add_words title 40 searchWords score in
  let score := add_values 70 50 30 searchTerm searchWords genres score in
  let score := add_values 60 40 25 searchTerm searchWords tags score in
  let score := if Str.includes developer searchTerm then score + 35 else score in
  let score := add_words developer 20 searchWords score in
  let score := if Str.includes description searchTerm then score + 25 else score in
  let score := if Str.includes fullDescription searchTerm then score + 20 else score in
  fold_left
    (fun sc word =>
       let sc := if Str.includes description word then sc + 15 else sc in
       if Str.includes fullDescription word then sc + 10 else sc)
    searchWords score.

Definition calculateSearchScore (game : Game) (searchTerm : string)
    (searchWords : list string) : result Z :=
  let* title := toLowerCase (Game.title game) in
  let* description := toLowerCase (Game.description game) in
  let* fullDescription := toLowerCase (Game.fullDescription game) in
  let* developer := toLowerCase (Game.developer game) in
  let* genres := mapM toLowerCase (Game.genre game) in
  let* tags := mapM toLowerCase (Game.tags game) in
  Ok (score_fields title description fullDescription developer genres tags
        searchTerm searchWords).

(** [searchGames], on the list [loadGames] returned *)
Definition searchGames (games : list Game) (query : string) : result (list Game) :=
  if (Str.is_empty query || Str.is_empty (Str.trim query))%bool then Ok games
  else
    let searchTerm := Str.trim (Str.toLowerCase query) in
    let searchWords := Str.words searchTerm in
    let* scored :=
      mapM (fun game =>
              let* score := calculateSearchScore game searchTerm searchWords in
              Ok (game, score)) games in
    let scoredGames := List.filter (fun item => (0 <? snd item)%Z) scored in
    let* sorted :=
      Array_sort (fun a b => Ok (Num.of_Z (snd b - snd a))) scoredGames in
    Ok (List.map fst sorted).

Module Filters.

(** The [filters] object of [advancedSearch]; [None] is an absent
    ([undefined]) property. *)
Record t : Type := {
  query : option string;
  genre : option string;
  minRating : option number;
  maxRating : option number;
  sortBy : option string;
  sortOrder : option string
}.

End Filters.

(** A string property used as a condition: present and not empty *)
Definition set_string (o : option string) : option string :=
  match o with
  | Some s => if Str.is_empty s then None else Some s
  | None => None
  end.

Section Pipeline.

Context {host : Host}.

(** The number a [Date] converts to in [dateA - dateB] *)
Definition Date_valueOf (d : Date) : number :=
  match time d with
  | Some t => Num.of_Z t
  | None => NaN
  end.

(** The comparator of [sortGames] *)
Definition sort_comparator (sortBy order : string) (a b : Game) : result number :=
  let* comparison :=
    if Str.eqb sortBy "rating" then
      Ok (Some (Num.sub (Game.rating a) (Game.rating b)))
    else if Str.eqb sortBy "title" then
      match Game.title a with
      | VStr s => Ok (Some (localeCompare s (ToString (Game.title b))))
      | _ => Throw TypeError
      end
    else if Str.eqb sortBy "releaseDate" then
      let dateA := match Game.releaseDate a with Some d => d | None => new_Date (VNum (Fin 0)) end in
      let dateB := match Game.releaseDate b with Some d => d | None => new_Date (VNum (Fin 0)) end in
      Ok (Some (Num.sub (Date_valueOf dateA) (Date_valueOf dateB)))
    else if Str.eqb sortBy "reviewCount" then
      Ok (Some (Num.of_Z (Game.reviewCount a - Game.reviewCount b)))
    else Ok None in
  match comparison with
  | None => Ok (Num.of_Z 0)
  | Some c => Ok (if Str.eqb order "asc" then c else Num.neg c)
  end.

Definition sortGames (games : list Game) (sortBy order : string) : result (list Game) :=
  Array_sort (sort_comparator sortBy order) games.

(** [game.genre.some(g => g.toLowerCase() === genre.toLowerCase())] *)
Definition genre_matches (genre : string) (game : Game) : result bool :=
  Array_some
    (fun g => let* l := toLowerCase g in Ok (Str.eqb l (Str.toLowerCase genre)))
    (Game.genre game).

(** [advancedSearch], on the list [loadGames] returned *)
Definition advancedSearch (games : list Game) (filters : Filters.t) : result (list Game) :=
  let* games :=
    match set_string (Filters.query filters) with
    | Some q => if Str.is_empty (Str.trim q) then Ok games else searchGames games q
    | None => Ok games
    end in
  let* games :=
    match set_string (Filters.genre filters) with
    | Some g =>
        if Str.eqb g "all" then Ok games
        else Array_filter (genre_matches g) games
    | None => Ok games
    end in
  let games :=
    match Filters.minRating filters with
    | Some m => List.filter (fun game => Num.geb (Game.rating game) m) games
    | None => games
    end in
  let games :=
    match Filters.maxRating filters with
    | Some m => List.filter (fun game => Num.leb (Game.rating game) m) games
    | None => games
    end in
  match set_string (Filters.sortBy filters) with
  | Some s =>
      sortGames games s
        (match set_string (Filters.sortOrder filters) with
         | Some o => o
         | None => "desc"
         end)
  | None => Ok games
  end.

End Pipeline.

(** ** localStorage and JSON *)

(** What [JSON.parse(JSON.stringify(v))] gives for a value: [undefined] and
    the numbers that are not finite become [null], a property holding
    [undefined] is dropped. *)
Fixpoint jsonify (v : value) : value :=
  match v with
  | VUndefined => VNull
  | VNum (Fin q) => v
  | VNum _ => VNull
  | VArr items => VArr (List.map jsonify items)
  | VObj props =>
      VObj ((fix go (ps : list (string * value)) : list (string * value) :=
               match ps with
               | [] => []
               | (k, VUndefined) :: rest => go rest
               | (k, x) :: rest => (k, jsonify x) :: go rest
               end) props)
  | _ => v
  end.

Section Json.

Context {host : Host}.

(** One property of a stringified object *)
Definition json_prop (k : string) (v : value) : list (string * value) :=
  match v with
  | VUndefined => []
  | _ => [(k, jsonify v)]
  end.

(** [Date.prototype.toJSON] *)
Definition Date_toJSON (d : option Date) : value :=
  match d with
  | Some {| time := Some t |} => VStr (Date_toISOString t)
  | _ => VNull
  end.

(** The plain object [JSON.parse] builds from the text [JSON.stringify]
    wrote for a [Game]: the own properties in the order the constructor
    assigned them. *)
Definition Game_toJSON (g : Game) : value :=
  VObj (json_prop "id" (Game.id g) ++
        json_prop "title" (Game.title g) ++
        json_prop "description" (Game.description g) ++
        json_prop "fullDescription" (Game.fullDescription g) ++
        [("genre", jsonify (VArr (Game.genre g)));
         ("rating", jsonify (VNum (Game.rating g)));
         ("reviewCount", VNum (Num.of_Z (Game.reviewCount g)))] ++
        json_prop "thumbnail" (Game.thumbnail g) ++
        [("screenshots", jsonify (VArr (Game.screenshots g)))] ++
        json_prop "systemRequirements" (Game.systemRequirements g) ++
        json_prop "officialWebsite" (Game.officialWebsite g) ++
        [("downloadLinks", jsonify (VArr (Game.downloadLinks g)));
         ("releaseDate", Date_toJSON (Game.releaseDate g))] ++
        json_prop "developer" (Game.developer g) ++
        [("tags", jsonify (VArr (Game.tags g)))])%list.

End Json.

(** A string kept in the storage, named by how it was made: the text
    [JSON.stringify] wrote for a list of games, the decimal text of an
    integer, or any other string. *)
Inductive text : Type :=
  | Stringified (games : list Game)
  | Decimal (z : Z)
  | Raw (s : string).

(** [localStorage].  When it is [disabled] every access throws; when it is
    [full], [setItem] throws. *)
Record Storage : Type := {
  disabled : bool;
  full : bool;
  items : gmap string text
}.

Module localStorage.

Definition getItem (st : Storage) (k : string) : result (option text) :=
  if disabled st then Throw (Error "SecurityError") else Ok (items st !! k).

Definition setItem (st : Storage) (k : string) (v : text) : result Storage :=
  if (disabled st || full st)%bool then Throw (Error "QuotaExceededError")
  else Ok {| disabled := disabled st; full := full st; items := <[k := v]> (items st) |}.

Definition removeItem (st : Storage) (k : string) : result Storage :=
  if disabled st then Throw (Error "SecurityError")
  else Ok {| disabled := disabled st; full := full st; items := delete k (items st) |}.

End localStorage.

(** ** GameDataManager: loading and caching *)

(** What [this.games] holds: the [Game] instances built from a fetched
    document, or whatever [JSON.parse] made of the cached text. *)
Inductive catalog : Type :=
  | Instances (games : list Game)
  | Plain (v : value).

Record Manager : Type := {
  games : catalog;
  isLoaded : bool
}.

(** The state outside the manager: the storage, and how many times [fetch]
    was called. *)
Record World : Type := {
  storage : Storage;
  fetches : nat
}.

(** What [fetch(dataUrl)] does when it is called: it rejects, or resolves to
    a response whose [json()] gives a document or throws. *)
Inductive response : Type :=
  | Rejected (e : exn)
  | Response (ok : bool) (status : Z) (json : result value).

Definition cacheKey : string := "gameData".
Definition cacheTimestampKey : string := "gameDataTimestamp".
Definition cacheTTL : Z := 24 * 60 * 60 * 1000.
Definition new_Manager : Manager := {| games := Instances []; isLoaded := false |}.

Section Loader.

Context {host : Host}.

(** [ToNumber] *)
Definition ToNumber (v : value) : number :=
  match v with
  | VUndefined => NaN
  | VNull => Num.of_Z 0
  | VBool b => Num.of_Z (if b then 1 else 0)
  | VNum n => n
  | VStr s => StringToNumber s
  | VArr _ | VObj _ => StringToNumber (ToString v)
  end.

(** [this.games.length > 0] *)
Definition length_pos (c : catalog) : bool :=
  match c with
  | Instances l => match l with [] => false | _ => true end
  | Plain (VArr l) => match l with [] => false | _ => true end
  | Plain (VStr s) => negb (Str.is_empty s)
  | Plain (VObj props) => Num.pos (ToNumber (assoc "length" props))
  | Plain _ => false
  end.

(** Tests and conversions on a stored string *)
Definition text_truthy (t : text) : bool :=
  match t with
  | Raw s => negb (Str.is_empty s)
  | _ => true
  end.

(** [parseInt(t, 10)]; the text of a stringified array starts with a bracket *)
Definition text_parseInt (t : text) : option Z :=
  match t with
  | Raw s => Parse.parseInt_str true s
  | Decimal z => Some z
  | Stringified _ => None
  end.

(** [JSON.parse(t)]; [None] when it throws *)
Definition text_JSON_parse (t : text) : option value :=
  match t with
  | Raw s => JSON_parse s
  | Decimal z => Some (VNum (Num.of_Z z))
  | Stringified gs => Some (VArr (List.map Game_toJSON gs))
  end.

Definition clearCache (st : Storage) : Storage :=
  match localStorage.removeItem st cacheKey with
  | Ok st1 =>
      match localStorage.removeItem st1 cacheTimestampKey with
      | Ok st2 => st2
      | Throw _ => st1
      end
  | Throw _ => st
  end.

Definition setCachedData (st : Storage) (data : list Game) (now : Z) : Storage :=
  match localStorage.setItem st cacheKey (Stringified data) with
  | Ok st1 =>
      match localStorage.setItem st1 cacheTimestampKey (Decimal now) with
      | Ok st2 => st2
      | Throw _ => st1
      end
  | Throw _ => st
  end.

(** [now - timestamp > this.cacheTTL]; false when the timestamp is NaN *)
Definition expired (now : Z) (timestamp : option Z) : bool :=
  match timestamp with
  | Some t => cacheTTL <? now - t
  | None => false
  end.

(** [getCachedData]: the parsed cache ([None] for [null]) and the storage
    after it. *)
Definition getCachedData (st : Storage) (now : Z) : option value * Storage :=
  let attempt : result (option value * Storage) :=
    let* cachedData := localStorage.getItem st cacheKey in
    let* cacheTimestamp := localStorage.getItem st cacheTimestampKey in
    match cachedData, cacheTimestamp with
    | Some d, Some t =>
        if (text_truthy d && text_truthy t)%bool then
          if expired now (text_parseInt t) then Ok (None, clearCache st)
          else
            match text_JSON_parse d with
            | Some v => Ok (Some v, st)
            | None => Throw SyntaxError
            end
        else Ok (None, st)
    | _, _ => Ok (None, st)
    end in
  match attempt with
  | Ok r => r
  | Throw _ => (None, clearCache st)
  end.

(** The document check and the construction of the games *)
Definition build_games (data : value) : result (list Game) :=
  match data with
  | VObj props =>
      match assoc "games" props with
      | VArr rows => mapM new_Game rows
      | _ => Throw (Error "Invalid data format: expected games array")
      end
  | _ => Throw (Error "Invalid data format: expected games array")
  end.

(** The part of [loadGames] after a cache miss: the fetch, the check of the
    document, the construction, the cache write. *)
Definition loadGames_fetch (m : Manager) (w : World) (now : Z) (resp : response)
  : result catalog * Manager * World :=
  let w := {| storage := storage w; fetches := S (fetches w) |} in
  let built :=
    match resp with
    | Rejected e => Throw e
    | Response ok status json =>
        if ok then
          let* data := json in
          if truthy data then build_games data
          else Throw (Error "Invalid data format: expected games array")
        else Throw (Error ("HTTP error! status: " ++ ToString (VNum (Num.of_Z status))))
    end in
  match built with
  | Ok gs =>
      let m := {| games := Instances gs; isLoaded := isLoaded m |} in
      let w := {| storage := setCachedData (storage w) gs now; fetches := fetches w |} in
      let m := {| games := games m; isLoaded := true |} in
      (Ok (games m), m, w)
  | Throw e => (Throw e, m, w)
  end.

(** [loadGames], run at time [now], with [resp] what the network does if it
    is asked.  The result, the manager and the world after the call; every
    exception leaves as a [GameDataError].  The clock is read once: the time
    the fetch takes is not counted. *)
Definition loadGames (m : Manager) (w : World) (now : Z) (resp : response)
  : result catalog * Manager * World :=
  let '(r, m, w) :=
    if (isLoaded m && length_pos (games m))%bool then (Ok (games m), m, w)
    else
      let '(cachedData, st) := getCachedData (storage w) now in
      let w := {| storage := st; fetches := fetches w |} in
      match cachedData with
      | Some v =>
          if truthy v then
            let m := {| games := Plain v; isLoaded := true |} in
            (Ok (games m), m, w)
          else loadGames_fetch m w now resp
      | None => loadGames_fetch m w now resp
      end in
  match r with
  | Ok c => (Ok c, m, w)
  | Throw e => (Throw (GameDataError e), m, w)
  end.

(** [refreshData] *)
Definition refreshData (m : Manager) (w : World) (now : Z) (resp : response)
  : result catalog * Manager * World :=
  let w := {| storage := clearCache (storage w); fetches := fetches w |} in
  let m := {| games := games m; isLoaded := false |} in
  let m := {| games := Instances []; isLoaded := isLoaded m |} in
  loadGames m w now resp.

End Loader.

(** ** Debouncer *)

Module Debouncer.

Section Timers.

(** The type of the argument [execute] passes on *)
Context {A : Type}.

(** The timers of the event loop.  A timer is its id, the time it is due and
    the argument its callback was made with.  Timers are kept in the order
    they were set; with one delay and a clock that only moves forward this
    is the order in which they are due.  [calls] records each run of the
    wrapped function: when, and with what. *)
Record Loop : Type := {
  next_id : nat;
  pending : list (nat * Z * A);
  calls : list (Z * A)
}.

Definition idle : Loop := {| next_id := 1; pending := []; calls := [] |}.

(** [setTimeout(callback, delay)] called at [now]; a negative delay counts
    as none. *)
Definition setTimeout (l : Loop) (now delay : Z) (args : A) : nat * Loop :=
  (next_id l,
   {| next_id := S (next_id l);
      pending := (pending l ++ [(next_id l, now + Z.max 0 delay, args)])%list;
      calls := calls l |}).

(** [clearTimeout(id)]; [None] is [null] *)
Definition clearTimeout (l : Loop) (id : option nat) : Loop :=
  match id with
  | None => l
  | Some i =>
      {| next_id := next_id l;
         pending := List.filter (fun tm => negb (Nat.eqb (fst (fst tm)) i)) (pending l);
         calls := calls l |}
  end.

(** The loop runs up to time [now]: every timer due by then fires, at the
    time it is due. *)
Definition run_until (l : Loop) (now : Z) : Loop :=
  let due tm := snd (fst tm) <=? now in
  {| next_id := next_id l;
     pending := List.filter (fun tm => negb (due tm)) (pending l);
     calls := (calls l ++
               List.map (fun tm => (snd (fst tm), snd tm)) (List.filter due (pending l)))%list |}.

Record t : Type := {
  delay : Z;
  timeoutId : option nat
}.

Definition new (delay : Z) : t := {| delay := delay; timeoutId := None |}.

(** [execute(...args)] called at [now] *)
Definition execute (d : t) (l : Loop) (now : Z) (args : A) : t * Loop :=
  let l := clearTimeout l (timeoutId d) in
  let '(id, l) := setTimeout l now (delay d) args in
  ({| delay := delay d; timeoutId := Some id |}, l).

(** [cancel()] *)
Definition cancel (d : t) (l : Loop) : Loop := clearTimeout l (timeoutId d).

(** A session: the [execute] calls, each with its time, in the order they
    are made; before each call the loop runs up to the time of the call. *)
Fixpoint session (d : t) (l : Loop) (events : list (Z * A)) : t * Loop :=
  match events with
  | [] => (d, l)
  | (now, args) :: rest =>
      let '(d, l) := execute d (run_until l now) now args in
      session d l rest
  end.

(** The runs of the wrapped function when the session is over and the loop
    has run up to time [stop]. *)
Definition fired (delay : Z) (events : list (Z * A)) (stop : Z) : list (Z * A) :=
  let '(_, l) := session (new delay) idle events in
  calls (run_until l stop).

(** The runs the contract asks for: a call settles when the delay has passed
    by the time of the next call, or, for the last call, when the session
    stops. *)
Fixpoint settled (delay : Z) (events : list (Z * A)) (stop : Z) : list (Z * A) :=
  match events with
  | [] => []
  | (now, args) :: rest =>
      let next := match rest with
                  | [] => stop
                  | (now', _) :: _ => now'
                  end in
      let due := now + Z.max 0 delay in
      ((if due <=? next then [(due, args)] else []) ++ settled delay rest stop)%list
  end.

End Timers.

Arguments Loop A : clear implicits.

End Debouncer.

(** ** GameDataManager: lookups over the catalog *)

(** What [find] returned from [this.games]: a [Game], or an element of the
    array parsed from the cache. *)
Inductive found : Type :=
  | FoundGame (g : Game)
  | FoundPlain (v : value).

(** [v === s] for a string [s] *)
Definition strict_eq_string (v : value) (s : string) : bool :=
  match v with
  | VStr x => String.eqb x s
  | _ => false
  end.

(** [Array.prototype.find] with a predicate that may throw *)
Fixpoint Array_find {A : Type} (p : A -> result bool) (l : list A) : result (option A) :=
  match l with
  | [] => Ok None
  | x :: xs =>
      let* hit := p x in
      if hit then Ok (Some x) else Array_find p xs
  end.

(** [games.find(game => game.id === gameId) || null] on what [loadGames]
    returned.  A value that is not an array has no [find]. *)
Definition find_by_id (c : catalog) (gameId : string) : result (option found) :=
  match c with
  | Instances games =>
      let* r := Array_find (fun game => Ok (strict_eq_string (Game.id game) gameId)) games in
      Ok (option_map FoundGame r)
  | Plain (VArr items) =>
      let* r := Array_find
                  (fun game => let* id := prop game "id" in Ok (strict_eq_string id gameId))
                  items in
      Ok (match r with
          | Some v => if truthy v then Some (FoundPlain v) else None
          | None => None
          end)
  | Plain _ => Throw TypeError
  end.

Section Lookups.

Context {host : Host}.

(** [getGameById] *)
Definition getGameById (m : Manager) (w : World) (now : Z) (resp : response)
    (gameId : string) : result (option found) * Manager * World :=
  let '(r, m, w) := loadGames m w now resp in
  (let* games := r in find_by_id games gameId, m, w).


End Lookups.

(** *** The genres of the catalog *)

(** SameValueZero, the equality of [Set].  Two arrays or two objects are
    the same only when they are one object; each array and object of a
    parsed document is an object of its own, so here they never are. *)
Definition same_value_zero (a b : value) : bool :=
  match a, b with
  | VUndefined, VUndefined => true
  | VNull, VNull => true
  | VBool x, VBool y => Bool.eqb x y
  | VNum NaN, VNum NaN => true
  | VNum (Inf x), VNum (Inf y) => Bool.eqb x y
  | VNum (Fin x), VNum (Fin y) => Qeq_bool x y
  | VStr x, VStr y => String.eqb x y
  | _, _ => false
  end.

(** [set.add(v)], the set as the list of its elements in insertion order *)
Definition Set_add (set : list value) (v : value) : list value :=
  if existsb (same_value_zero v) set then set else (set ++ [v])%list.

Section Genres.

Context {host : Host}.

(** The comparison [sort()] makes without a comparator, on two elements
    that are not [undefined]: by their strings, code unit by code unit. *)
Definition default_compare (a b : value) : number :=
  match String.compare (ToString a) (ToString b) with
  | Lt => Num.of_Z (-1)
  | Gt => Num.of_Z 1
  | Eq => Num.of_Z 0
  end.

(** [array.sort()]: the elements that are [undefined] go last. *)
Definition Array_sort_default (l : list value) : result (list value) :=
  let is_undefined v := match v with VUndefined => true | _ => false end in
  let* sorted :=
    Array_sort (fun a b => Ok (default_compare a b))
      (List.filter (fun v => negb (is_undefined v)) l) in
  Ok (sorted ++ List.filter is_undefined l)%list.

(** [getGenres], on the list [loadGames] returned *)
Definition getGenres (games : list Game) : result (list value) :=
  let genres :=
    fold_left (fun set game => fold_left Set_add (Game.genre game) set) games [] in
  Array_sort_default genres.

End Genres.

(** ** GameListView: pages, cards and the loading flag

    The container is modelled by what the last assignment to its
    [innerHTML] put there: the loading indicator, a message, or the grid
    with its pagination bar. *)

Module GameListView.

Definition gamesPerPage : Z := 20.

(** A control of the pagination bar *)
Inductive page_item : Type :=
  | Previous (page : Z)
  | Number (page : Z) (active : bool)
  | Ellipsis
  | Next (page : Z).

(** An entry of the grid: the card of a game or an in-content ad *)
Inductive grid_item : Type :=
  | Card (game : Game)
  | Ad (adIndex : Z).

Inductive content : Type :=
  | Blank
  | Loading
  | ErrorState (message : string)
  | EmptyState
  | Grid (items : list grid_item) (pagination : list page_item).

Record t : Type := {
  container : content;
  currentPage : Z;
  currentGames : list Game;
  filteredGames : list Game;
  isLoading : bool
}.

(** The fields as the constructor sets them, before [init] *)
Definition new : t :=
  {| container := Blank; currentPage := 1;
     currentGames := []; filteredGames := []; isLoading := false |}.

(** [Math.ceil(n / d)] for integers [n] and [d > 0] *)
Definition ceil_div (n d : Z) : Z := - ((- n) / d).

(** [array.slice(start, end)] *)
Definition slice {A : Type} (l : list A) (start stop : Z) : list A :=
  let len := Z.of_nat (length l) in
  let k := if start <? 0 then Z.max (len + start) 0 else Z.min start len in
  let final := if stop <? 0 then Z.max (len + stop) 0 else Z.min stop len in
  firstn (Z.to_nat (final - k)) (skipn (Z.to_nat k) l).

(** The loop [for (page = first; page <= last; page++)] *)
Definition pages_from_to (first last : Z) : list Z :=
  List.map (fun i => first + Z.of_nat i) (seq 0 (Z.to_nat (last - first + 1))).

Definition totalPages (v : t) : Z :=
  ceil_div (Z.of_nat (length (filteredGames v))) gamesPerPage.

(** [renderPagination] *)
Definition renderPagination (v : t) : list page_item :=
  let totalPages := totalPages v in
  if totalPages <=? 1 then []
  else
    let maxVisiblePages := 5 in
    let startPage := Z.max 1 (currentPage v - maxVisiblePages / 2) in
    let endPage := Z.min totalPages (startPage + maxVisiblePages - 1) in
    let startPage :=
      if endPage - startPage <? maxVisiblePages - 1
      then Z.max 1 (endPage - maxVisiblePages + 1)
      else startPage in
    ((if 1 <? currentPage v then [Previous (currentPage v - 1)] else []) ++
     (if 1 <? startPage
      then Number 1 false :: (if 2 <? startPage then [Ellipsis] else [])
      else []) ++
     List.map (fun page => Number page (page =? currentPage v))
       (pages_from_to startPage endPage) ++
     (if endPage <? totalPages
      then (if endPage <? totalPages - 1 then [Ellipsis] else []) ++
           [Number totalPages false]
      else []) ++
     (if currentPage v <? totalPages then [Next (currentPage v + 1)] else []))%list.

(** The loop of [insertInContentAds], from index [i] on; [len] is the
    number of cards. *)
Fixpoint insert_ads (i len : Z) (games : list Game) : list grid_item :=
  match games with
  | [] => []
  | game :: rest =>
      let adInterval := 8 in
      (Card game ::
       (if (((i + 1) mod adInterval =? 0) && (i <? len - 1))%bool
        then [Ad (i / adInterval + 1)]
        else []) ++
       insert_ads (i + 1) len rest)%list
  end.

(** [insertInContentAds] *)
Definition insertInContentAds (games : list Game) : list grid_item :=
  insert_ads 0 (Z.of_nat (length games)) games.

Definition set_container (v : t) (c : content) (loading : bool) : t :=
  {| container := c; currentPage := currentPage v;
     currentGames := currentGames v; filteredGames := filteredGames v;
     isLoading := loading |}.

(** [showLoading], [showError] and [showEmptyState] *)
Definition showLoading (v : t) : t := set_container v Loading true.
Definition showError (v : t) (message : string) : t :=
  set_container v (ErrorState message) false.
Definition showEmptyState (v : t) : t := set_container v EmptyState false.

(** The games of the current page *)
Definition gamesToShow (v : t) : list Game :=
  let startIndex := (currentPage v - 1) * gamesPerPage in
  let endIndex := startIndex + gamesPerPage in
  slice (filteredGames v) startIndex endIndex.

(** [renderGameGrid]; the lazy loading of the images aside *)
Definition renderGameGrid (v : t) : t :=
  if isLoading v then v
  else
    match gamesToShow v with
    | [] => showEmptyState v
    | games =>
        set_container v (Grid (insertInContentAds games) (renderPagination v))
          (isLoading v)
    end.

Definition with_games (v : t) (current filtered : list Game) : t :=
  {| container := container v; currentPage := 1;
     currentGames := current; filteredGames := filtered; isLoading := isLoading v |}.

(** [loadAndRenderGames]; [loaded] is what [loadGames] gave, a list of
    [Game] instances or an error. *)
Definition loadAndRenderGames (v : t) (loaded : result (list Game)) : t :=
  let v := showLoading v in
  match loaded with
  | Ok games => renderGameGrid (with_games v games games)
  | Throw _ => showError v "Failed to load games. Please try again later."
  end.

Definition set_page (v : t) (page : Z) : t :=
  {| container := container v; currentPage := page;
     currentGames := currentGames v; filteredGames := filteredGames v;
     isLoading := isLoading v |}.

(** [goToPage]; the scrolling and the address bar aside *)
Definition goToPage (v : t) (page : Z) : t :=
  if ((page <? 1) || (totalPages v <? page) || (page =? currentPage v))%bool then v
  else renderGameGrid (set_page v page).

(** A property of the object spread [{query, genre, ...additionalFilters}] *)
Definition spread {A : Type} (own : A) (additional : option A) : option A :=
  match additional with
  | Some a => Some a
  | None => Some own
  end.

(** The object [{query: searchQuery, genre: genre, ...additionalFilters}] *)
Definition filters_of (searchQuery genre : string) (additionalFilters : Filters.t) :
    Filters.t :=
  {| Filters.query := spread searchQuery (Filters.query additionalFilters);
     Filters.genre := spread genre (Filters.genre additionalFilters);
     Filters.minRating := Filters.minRating additionalFilters;
     Filters.maxRating := Filters.maxRating additionalFilters;
     Filters.sortBy := Filters.sortBy additionalFilters;
     Filters.sortOrder := Filters.sortOrder additionalFilters |}.

(** [filterGames]; [loaded] is what [loadGames] gave to [advancedSearch].
    The filter summary, an element of its own, is left aside. *)
Definition filterGames {host : Host} (v : t) (loaded : result (list Game))
    (searchQuery genre : string) (additionalFilters : Filters.t) : t :=
  let v := showLoading v in
  let filters := filters_of searchQuery genre additionalFilters in
  match (let* games := loaded in advancedSearch games filters) with
  | Ok filteredGames =>
      renderGameGrid (with_games v (currentGames v) filteredGames)
  | Throw _ => showError v "Failed to filter games. Please try again."
  end.

Inductive star : Type := FullStar | HalfStar | EmptyStar.

(** [Math.floor] *)
Definition Math_floor (n : number) : number :=
  match n with
  | Fin q => Fin (inject_Z (Qfloor q))
  | _ => n
  end.

(** [n % 1] *)
Definition remainder_1 (n : number) : number :=
  match n with
  | Fin q => Fin (q - inject_Z (Num.trunc q))
  | _ => NaN
  end.

(** The turns of [for (let i = 0; i < n; i++)]; [None] when the loop does
    not end. *)
Definition loop_turns (n : number) : option nat :=
  match n with
  | NaN => Some O
  | Inf negative => if negative then Some O else None
  | Fin q => Some (Z.to_nat (Qceiling q))
  end.

(** [renderRatingStars]; [None] when it does not return. *)
Definition renderRatingStars (rating : number) : option (list star) :=
  let fullStars := Math_floor rating in
  let hasHalfStar := Num.geb (remainder_1 rating) (Fin (1 # 2)) in
  let emptyStars :=
    Num.sub (Num.sub (Fin 5) fullStars) (Fin (if hasHalfStar then 1 else 0)) in
  match loop_turns fullStars with
  | None => None
  | Some full =>
      match loop_turns emptyStars with
      | None => None
      | Some empty =>
          Some (repeat FullStar full ++
                (if hasHalfStar then [HalfStar] else []) ++
                repeat EmptyStar empty)%list
      end
  end.

End GameListView.

(** ** SearchFilter: the query, the genre and the debounced search

    The component as the filter callback sees it: the text of the input,
    the current query and genre, the debouncer with the timers it has set,
    and the calls made to the callback, oldest first. *)

Module SearchFilter.

Record t : Type := {
  searchInput_value : string;
  currentSearchQuery : string;
  currentGenre : string;
  debouncedSearch : Debouncer.t;
  timers : Debouncer.Loop string;
  onFilterCallback : bool;
  filterCalls : list (string * string)
}.

Definition debounceDelay : Z := 300.

(** The fields as the constructor sets them; [text] is what the input holds. *)
Definition new (text : string) : t :=
  {| searchInput_value := text;
     currentSearchQuery := "";
     currentGenre := "all";
     debouncedSearch := Debouncer.new debounceDelay;
     timers := Debouncer.idle;
     onFilterCallback := false;
     filterCalls := [] |}.

(** [onFilter(callback)] *)
Definition onFilter (s : t) : t :=
  {| searchInput_value := searchInput_value s;
     currentSearchQuery := currentSearchQuery s;
     currentGenre := currentGenre s;
     debouncedSearch := debouncedSearch s;
     timers := timers s;
     onFilterCallback := true;
     filterCalls := filterCalls s |}.

(** [triggerFilter] *)
Definition triggerFilter (s : t) : t :=
  if onFilterCallback s
  then
    {| searchInput_value := searchInput_value s;
       currentSearchQuery := currentSearchQuery s;
       currentGenre := currentGenre s;
       debouncedSearch := debouncedSearch s;
       timers := timers s;
       onFilterCallback := onFilterCallback s;
       filterCalls := (filterCalls s ++ [(currentSearchQuery s, currentGenre s)])%list |}
  else s.

Definition set_filters (s : t) (text query genre : string) : t :=
  {| searchInput_value := text;
     currentSearchQuery := query;
     currentGenre := genre;
     debouncedSearch := debouncedSearch s;
     timers := timers s;
     onFilterCallback := onFilterCallback s;
     filterCalls := filterCalls s |}.

(** [performSearch]; the analytics call aside *)
Definition performSearch (s : t) (query : string) : t :=
  triggerFilter (set_filters s (searchInput_value s) (Str.trim query) (currentGenre s)).

(** [handleGenreChange]; the analytics call aside *)
Definition handleGenreChange (s : t) (genre : string) : t :=
  triggerFilter (set_filters s (searchInput_value s) (currentSearchQuery s) genre).

(** [clearSearch] *)
Definition clearSearch (s : t) : t :=
  triggerFilter (set_filters s "" "" (currentGenre s)).

(** [resetFilters] *)
Definition resetFilters (s : t) : t :=
  triggerFilter (set_filters s "" "" "all").

(** [handleSearchInput] called at [now] *)
Definition handleSearchInput (s : t) (now : Z) (query : string) : t :=
  let '(d, l) := Debouncer.execute (debouncedSearch s) (timers s) now query in
  {| searchInput_value := searchInput_value s;
     currentSearchQuery := currentSearchQuery s;
     currentGenre := currentGenre s;
     debouncedSearch := d;
     timers := l;
     onFilterCallback := onFilterCallback s;
     filterCalls := filterCalls s |}.

(** The listener of the input's [input] event: the input holds [text]. *)
Definition on_input (s : t) (now : Z) (text : string) : t :=
  handleSearchInput
    (set_filters s text (currentSearchQuery s) (currentGenre s)) now text.


(** The event loop runs up to time [now]: the timers due by then fire, each
    running [performSearch] with the query it was set with. *)
Definition run_until (s : t) (now : Z) : t :=
  let due tm := snd (fst tm) <=? now in
  fold_left performSearch
    (List.map snd (List.filter due (Debouncer.pending (timers s))))
    {| searchInput_value := searchInput_value s;
       currentSearchQuery := currentSearchQuery s;
       currentGenre := currentGenre s;
       debouncedSearch := debouncedSearch s;
       timers := Debouncer.run_until (timers s) now;
       onFilterCallback := onFilterCallback s;
       filterCalls := filterCalls s |}.

(** What the user does: type so that the input holds a text, press Escape
    or the clear button, pick a genre. *)
Inductive event : Type :=
  | Input (text : string)
  | Clear
  | Genre (genre : string).

(** The listeners of [setupEventListeners], for an event at time [now] *)
Definition listen (s : t) (now : Z) (e : event) : t :=
  let s := run_until s now in
  match e with
  | Input text => on_input s now text
  | Clear => clearSearch s
  | Genre genre => handleGenreChange s genre
  end.

End SearchFilter.

(** * Vocabulary of the properties *)

(** A host for the examples.  Every statement below that names it holds
    for any other host as well: the inputs chosen there reach none of its
    functions, or the statement does not depend on what they return. *)
Definition example_host : Host := {|
  Number_toString := fun _ => "";
  StringToNumber := fun _ => NaN;
  Date_parse := fun _ => None;
  Date_toISOString := fun _ => "";
  localeCompare := fun _ _ => Num.zero;
  JSON_parse := fun _ => None
|}.

Definition missing_fields : exn := Error "Game data must include id and title".

(** A required field as the data model types it: absent ([undefined], or a
    JSON [null]) or a string. *)
Definition absent (v : value) : Prop := v = VUndefined \/ v = VNull.

Definition absent_or_string (v : value) : Prop := absent v \/ exists s, v = VStr s.


(** The rows of the catalog of the specification's scenario *)
Definition space_raiders : list (string * value) :=
  [("id", VStr "a"); ("title", VStr "Space Raiders");
   ("genre", VArr [VStr "Action"]); ("rating", VNum (Fin (45 # 10)))].

Definition puzzle_quest : list (string * value) :=
  [("id", VStr "b"); ("title", VStr "Puzzle Quest");
   ("genre", VArr [VStr "Puzzle"]); ("rating", VNum (Fin 3))].





Definition is_str (v : value) : Prop := exists s, v = VStr s.

(** The fields the scorer lower-cases are strings, as the data model has
    them. *)
Definition text_typed (g : Game) : Prop :=
  is_str (Game.title g) /\ is_str (Game.description g) /\
  is_str (Game.fullDescription g) /\ is_str (Game.developer g) /\
  Forall is_str (Game.genre g) /\ Forall is_str (Game.tags g).






(** An entry with the given text fields, and defaults elsewhere *)
Definition entry (id title description fullDescription developer : string)
    (genre tags : list string) (rating : number) (releaseDate : option Date) : Game :=
  {| Game.id := VStr id;
     Game.title := VStr title;
     Game.description := VStr description;
     Game.fullDescription := VStr fullDescription;
     Game.genre := List.map VStr genre;
     Game.rating := rating;
     Game.reviewCount := 0;
     Game.thumbnail := VStr "images/placeholder.jpg";
     Game.screenshots := [];
     Game.systemRequirements := VObj [];
     Game.officialWebsite := VStr "";
     Game.downloadLinks := [];
     Game.releaseDate := releaseDate;
     Game.developer := VStr developer;
     Game.tags := List.map VStr tags |}.

Definition exact_title : Game :=
  entry "a" "Space" "" "" "" ["Action"] [] (Fin 4) None.

Definition partial_title : Game :=
  entry "b" "Deep Space Nine" "" "" "" ["Strategy"] [] (Fin 4) None.

Definition described : Game :=
  entry "c" "Orbit" "" "Lost in space" "" ["Puzzle"] [] (Fin 4) None.

(** The sort when the comparator does not throw: [after x y] tells that
    [x] has to go behind [y]. *)
Fixpoint insert {A : Type} (after : A -> A -> bool) (x : A) (l : list A) : list A :=
  match l with
  | [] => [x]
  | y :: ys => if after x y then y :: insert after x ys else x :: y :: ys
  end.

Fixpoint isort {A : Type} (after : A -> A -> bool) (l : list A) : list A :=
  match l with
  | [] => []
  | x :: xs => insert after x (isort after xs)
  end.

(** Sorting by a key, ascending: [x] goes behind [y] when its key is the
    larger one. *)
Definition key_after {A : Type} (key : A -> Z) (x y : A) : bool := key y <? key x.

Definition key_le {A : Type} (key : A -> Z) (x y : A) : Prop := key x <= key y.

(** The query consists of white space only (or of nothing). *)
Fixpoint all_ws (s : string) : bool :=
  match s with
  | EmptyString => true
  | String c r => (Str.is_ws c && all_ws r)%bool
  end.

(** The relevance score of an entry against a query, 0 where the scorer
    throws *)
Definition relevance (query : string) (g : Game) : Z :=
  let searchTerm := Str.trim (Str.toLowerCase query) in
  match calculateSearchScore g searchTerm (Str.words searchTerm) with
  | Ok s => s
  | Throw _ => 0
  end.



(** The comparison of [sortGames] as a number, for an entry on the left
    whose title is a string *)
Definition comparison {host : Host} (sortBy order : string) (a b : Game) : number :=
  match sort_comparator sortBy order a b with
  | Ok c => c
  | Throw _ => Num.zero
  end.

(** The stages of [advancedSearch], one after the other *)
Definition stage_text (filters : Filters.t) (games : list Game) : result (list Game) :=
  match set_string (Filters.query filters) with
  | Some q => if Str.is_empty (Str.trim q) then Ok games else searchGames games q
  | None => Ok games
  end.

Definition stage_genre (filters : Filters.t) (games : list Game) : result (list Game) :=
  match set_string (Filters.genre filters) with
  | Some g => if Str.eqb g "all" then Ok games else Array_filter (genre_matches g) games
  | None => Ok games
  end.

Definition stage_rating (filters : Filters.t) (games : list Game) : list Game :=
  let games :=
    match Filters.minRating filters with
    | Some m => List.filter (fun game => Num.geb (Game.rating game) m) games
    | None => games
    end in
  match Filters.maxRating filters with
  | Some m => List.filter (fun game => Num.leb (Game.rating game) m) games
  | None => games
  end.

Definition stage_sort {host : Host} (filters : Filters.t) (games : list Game)
  : result (list Game) :=
  match set_string (Filters.sortBy filters) with
  | Some s =>
      sortGames games s
        (match set_string (Filters.sortOrder filters) with
         | Some o => o
         | None => "desc"
         end)
  | None => Ok games
  end.

(** The catalog of the specification's scenario, as entries *)
Definition scenario : list Game :=
  [entry "a" "Space Raiders" "" "" "" ["Action"] [] (Fin (45 # 10)) None;
   entry "b" "Puzzle Quest" "" "" "" ["Puzzle"] [] (Fin 3) None].

Definition no_filters : Filters.t :=
  {| Filters.query := None; Filters.genre := None; Filters.minRating := None;
     Filters.maxRating := None; Filters.sortBy := None; Filters.sortOrder := None |}.

Definition puzzles_rated : Filters.t :=
  {| Filters.query := None; Filters.genre := Some "puzzle";
     Filters.minRating := Some (Fin 1); Filters.maxRating := Some (Fin 5);
     Filters.sortBy := Some "rating"; Filters.sortOrder := None |}.





Definition no_date : Game := entry "n" "No Date" "" "" "" [] [] (Fin 4) None.

Definition before_epoch : Game :=
  entry "o" "Old Timer" "" "" "" [] [] (Fin 4) (Some {| time := Some (-1) |}).

Definition after_epoch : Game :=
  entry "p" "Newcomer" "" "" "" [] [] (Fin 4) (Some {| time := Some 1700000000000 |}).

(** The response is a success whose document builds the games [gs]. *)
Definition built {host : Host} (resp : response) (gs : list Game) : Prop :=
  exists status data, resp = Response true status (Ok data) /\ build_games data = Ok gs.

(** How [loadGames] returned, when it did *)
Inductive served {host : Host} (m : Manager) (w : World) (now : Z) (resp : response)
    (c : catalog) (m1 : Manager) (w1 : World) : Prop :=
  | from_memo :
      isLoaded m = true -> length_pos (games m) = true ->
      c = games m -> m1 = m -> w1 = w -> served m w now resp c m1 w1
  | from_cache (v : value) :
      getCachedData (storage w) now = (Some v, storage w1) -> truthy v = true ->
      c = Plain v -> m1 = {| games := Plain v; isLoaded := true |} ->
      fetches w1 = fetches w -> served m w now resp c m1 w1
  | from_network (gs : list Game) :
      built resp gs ->
      c = Instances gs -> m1 = {| games := Instances gs; isLoaded := true |} ->
      storage w1 = setCachedData (snd (getCachedData (storage w) now)) gs now ->
      fetches w1 = S (fetches w) -> served m w now resp c m1 w1.

Definition empty_storage : Storage := {| disabled := false; full := false; items := ∅ |}.

Definition blocked_storage : Storage := {| disabled := true; full := false; items := ∅ |}.

(** A successful response carrying the document [{ games: rows }] *)
Definition document (rows : list value) : response :=
  Response true 200 (Ok (VObj [("games", VArr rows)])).

Definition loaded : Manager :=
  {| games := Instances scenario; isLoaded := true |}.

Definition dated_row : value :=
  VObj [("id", VStr "a"); ("title", VStr "Space Raiders");
        ("releaseDate", VStr "2020-01-01")].

Definition fresh_world : World := {| storage := empty_storage; fetches := 0 |}.

(** The runs the timers [pending] give when the loop runs up to [next] *)
Definition flush {A : Type} (pending : list (nat * Z * A)) (next : Z) : list (Z * A) :=
  List.map (fun tm => (snd (fst tm), snd tm))
    (List.filter (fun tm => snd (fst tm) <=? next) pending).

(** The time up to which the loop runs next *)
Definition next_time {A : Type} (events : list (Z * A)) (stop : Z) : Z :=
  match events with
  | [] => stop
  | (now, _) :: _ => now
  end.

(** At most one timer is pending, and it is the one the debouncer holds. *)
Definition single_slot {A : Type} (d : Debouncer.t) (l : Debouncer.Loop A) : Prop :=
  Debouncer.pending l = [] \/
  exists i due args,
    Debouncer.timeoutId d = Some i /\ Debouncer.pending l = [(i, due, args)].

(** A burst: each call comes before the timer of the call before it is
    due. *)
Fixpoint burst {A : Type} (delay : Z) (events : list (Z * A)) : Prop :=
  match events with
  | (now, _) :: rest =>
      match rest with
      | (next, _) :: _ => next < now + Z.max 0 delay /\ burst delay rest
      | [] => True
      end
  | [] => True
  end.

(** A key of the storage that is not one of the two of the cache *)
Definition other_key (k : string) : Prop := k <> cacheKey /\ k <> cacheTimestampKey.



(** The order of strings, code unit by code unit *)
Definition str_le (a b : string) : Prop := String.compare a b <> Gt.

Definition str_lt (a b : string) : Prop := String.compare a b = Lt.

(** The set of [getGenres] when the genres are strings: the strings in the
    order in which they first occur *)
Definition add_name (set : list string) (s : string) : list string :=
  if existsb (String.eqb s) set then set else (set ++ [s])%list.

(** [x] goes behind [y] in the sort without a comparator. *)
Definition name_after (x y : string) : bool :=
  match String.compare x y with
  | Gt => true
  | _ => false
  end.

(** A row as the data model types its text: [title] a string, the
    descriptions and the developer strings or absent, [genre] and [tags]
    arrays of strings when they are arrays. *)
Definition strings_if_array (v : value) : Prop :=
  forall items, v = VArr items -> Forall is_str items.

Definition row_typed (data : value) : Prop :=
  is_str (get data "title") /\
  absent_or_string (get data "description") /\
  absent_or_string (get data "fullDescription") /\
  absent_or_string (get data "developer") /\
  strings_if_array (get data "genre") /\
  strings_if_array (get data "tags").



(** What happens to a game list view: the catalogue arrives (or fails to),
    a filter is applied, a page button is pressed.  Each request is handled
    to its end before the next event. *)
Inductive view_event : Type :=
  | LoadGames (loaded : result (list Game))
  | FilterGames (loaded : result (list Game)) (searchQuery genre : string)
      (additionalFilters : Filters.t)
  | GoToPage (page : Z).

Definition handle {host : Host} (v : GameListView.t) (e : view_event) : GameListView.t :=
  match e with
  | LoadGames loaded => GameListView.loadAndRenderGames v loaded
  | FilterGames loaded q g more => GameListView.filterGames v loaded q g more
  | GoToPage page => GameListView.goToPage v page
  end.

(** The view after a run of events on a new view *)
Definition view_after {host : Host} (events : list view_event) : GameListView.t :=
  fold_left handle events GameListView.new.

(** The event is a load or a filter whose data request threw. *)
Definition failed {host : Host} (e : view_event) : bool :=
  match e with
  | LoadGames (Throw _) => true
  | LoadGames (Ok _) => false
  | FilterGames loaded q g more =>
      match (let* games := loaded in
             advancedSearch games (GameListView.filters_of q g more)) with
      | Ok _ => false
      | Throw _ => true
      end
  | GoToPage _ => false
  end.

Definition is_request (e : view_event) : bool :=
  match e with
  | GoToPage _ => false
  | _ => true
  end.

(** The games [renderGameGrid] takes for page [page] *)
Definition page_of (v : GameListView.t) (page : Z) : list Game :=
  GameListView.gamesToShow (GameListView.set_page v page).

(** The page numbers of a pagination bar, and those marked active *)
Definition numbers (items : list GameListView.page_item) : list Z :=
  flat_map (fun i => match i with
                     | GameListView.Number page _ => [page]
                     | _ => []
                     end) items.

Definition active_pages (items : list GameListView.page_item) : list Z :=
  flat_map (fun i => match i with
                     | GameListView.Number page true => [page]
                     | _ => []
                     end) items.

(** The games and the ads of a grid, in order *)
Definition cards_of (items : list GameListView.grid_item) : list Game :=
  flat_map (fun i => match i with
                     | GameListView.Card game => [game]
                     | GameListView.Ad _ => []
                     end) items.

Definition ads_of (items : list GameListView.grid_item) : list Z :=
  flat_map (fun i => match i with
                     | GameListView.Card _ => []
                     | GameListView.Ad adIndex => [adIndex]
                     end) items.

(** The search filter of a page whose input holds [text], with a filter
    callback set, after the events of a history, each at its time *)
Definition filter_after (text : string) (history : list (Z * SearchFilter.event)) :
    SearchFilter.t :=
  fold_left (fun s te => SearchFilter.listen s (fst te) (snd te)) history
    (SearchFilter.onFilter (SearchFilter.new text)).

(** The debouncer of the filter has at most one timer set, keeps the delay
    of the constructor, and the callback is set. *)
Definition filter_ready (s : SearchFilter.t) : Prop :=
  single_slot (SearchFilter.debouncedSearch s) (SearchFilter.timers s) /\
  Debouncer.delay (SearchFilter.debouncedSearch s) = SearchFilter.debounceDelay /\
  SearchFilter.onFilterCallback s = true.


(** [x] may stand before [y] under the comparison [after]. *)
Definition may_precede {A : Type} (after : A -> A -> bool) (x y : A) : Prop :=
  after x y = false.

(** What a run without a failed request leaves in the container *)
Definition settled_on (requested : bool) (v : GameListView.t) : Prop :=
  if requested
  then GameListView.isLoading v = true /\ GameListView.container v = GameListView.Loading
  else v = GameListView.new.

(** The current page is the first one or lies within the pages. *)
Definition page_valid (v : GameListView.t) : Prop :=
  GameListView.currentPage v = 1 \/
  1 <= GameListView.currentPage v <= GameListView.totalPages v.

(** Storages for the examples: a record whose payload is not JSON, a record
    whose time stamp is not a number, and a storage that holds a text of
    another feature of the page. *)
Definition corrupt_storage : Storage :=
  {| disabled := false; full := false;
     items := <[cacheKey := Raw "{"]> (<[cacheTimestampKey := Decimal 1000]> ∅) |}.

Definition unstamped_storage : Storage :=
  {| disabled := false; full := false;
     items := <[cacheKey := Stringified scenario]> (<[cacheTimestampKey := Raw "soon"]> ∅) |}.

Definition themed_world : World :=
  {| storage := {| disabled := false; full := false; items := <["theme" := Raw "dark"]> ∅ |};
     fetches := 0 |}.


(** A view of 45 games, on its second page of three *)
Definition three_pages : GameListView.t :=
  {| GameListView.container := GameListView.Blank;
     GameListView.currentPage := 2;
     GameListView.currentGames := repeat exact_title 45;
     GameListView.filteredGames := repeat exact_title 45;
     GameListView.isLoading := false |}.

(** * Properties *)

(** ** The builtins on examples *)

Example words_ex : Str.words "space  raiders x" = ["space"; "raiders"; "x"].
Proof. reflexivity. Qed.

Example lower_ex : Str.toLowerCase "Space Raiders 2!" = "space raiders 2!".
Proof. reflexivity. Qed.

Example parseFloat_ex :
  Parse.parseFloat_str " 4.5 stars" = Fin (45 * / 10)%Q /\
  Parse.parseFloat_str "abc" = NaN /\
  Parse.parseFloat_str "-.5e1x" = Fin (- (5 * 1))%Q /\
  Parse.parseFloat_str "-Infinity" = Inf true.
Proof. repeat split; vm_compute; reflexivity. Qed.

Example parseInt_ex :
  Parse.parseInt_str false "42px" = Some 42 /\
  Parse.parseInt_str false "-7.9" = Some (-7) /\
  Parse.parseInt_str false "0x1f" = Some 31 /\
  Parse.parseInt_str true "0x1f" = Some 0 /\
  Parse.parseInt_str false "many" = None.
Proof. repeat split; reflexivity. Qed.

Example debounce_ex :
  Debouncer.fired 300 [(0, "a"); (100, "ab"); (200, "abc")] 1000 = [(500, "abc")].
Proof. reflexivity. Qed.

Example trim_ex : Str.trim "  Space Raiders  " = "Space Raiders".
Proof. reflexivity. Qed.

Example includes_ex : Str.includes "puzzle quest" "le q" = true /\ Str.includes "puzzle" "zq" = false.
Proof. split; reflexivity. Qed.

(** ** The constructor of Game *)

Section ConstructorFacts.

Context {host : Host}.

Lemma new_Game_object (data : value) (g : Game) :
  new_Game data = Ok g -> exists props, data = VObj props.
Proof.
  destruct data; cbn; try discriminate; eauto.
Qed.




End ConstructorFacts.


(** A row whose [id] is the number 0 is rejected as well: the check is on
    the truth value of the field. *)
Example new_Game_zero_id (host : Host) :
  new_Game (VObj [("id", VNum (Fin 0)); ("title", VStr "Zero")]) = Throw missing_fields.
Proof. reflexivity. Qed.

(** The check comes first: a row that is not an object has no [id], and a
    [null] row cannot be read at all. *)
Example new_Game_not_object (host : Host) :
  new_Game (VStr "row") = Throw missing_fields /\ new_Game VNull = Throw TypeError.
Proof. split; reflexivity. Qed.

(** *** Rating and review count *)





(** ** Substrings *)

Module StrFacts.

Lemma app_cons (c : ascii) (a b : string) :
  (String c a ++ b)%string = String c (a ++ b)%string.
Proof. reflexivity. Qed.


Lemma app_nil_r (s : string) : (s ++ "")%string = s.
Proof.
  induction s as [| c s IH]; [reflexivity |].
  now rewrite app_cons, IH.
Qed.

Lemma app_assoc (a b c : string) : (a ++ (b ++ c))%string = ((a ++ b) ++ c)%string.
Proof.
  induction a as [| x a IH]; [reflexivity |].
  now rewrite !app_cons, IH.
Qed.






Lemma eqb_eq (a b : string) : Str.eqb a b = true <-> a = b.
Proof. apply String.eqb_eq. Qed.



End StrFacts.

(** ** The relevance score *)

Section ScoreFacts.

Implicit Types (field term : string) (words : list string) (w score : Z).










End ScoreFacts.

(** *** Entries whose text fields are strings *)

Lemma mapM_ok {A B} (f : A -> result B) (l : list A) :
  Forall (fun a => exists b, f a = Ok b) l -> exists bs, mapM f l = Ok bs.
Proof.
  induction 1 as [| a l [b Hb] _ [bs IH]]; cbn; [eauto |].
  rewrite Hb, IH. cbn. eauto.
Qed.

Lemma mapM_In {A B} (f : A -> result B) (l : list A) (bs : list B) :
  mapM f l = Ok bs -> forall b, In b bs -> exists a, In a l /\ f a = Ok b.
Proof.
  revert bs. induction l as [| a l IH]; intros bs; cbn.
  - intros [= <-] b [].
  - destruct (f a) as [b0 |] eqn:Ha; cbn; [| discriminate].
    destruct (mapM f l) as [bs0 |] eqn:Hl; cbn; [| discriminate].
    intros [= <-] b [<- | Hin].
    + exists a. auto.
    + destruct (IH bs0 eq_refl b Hin) as (a' & Ha' & Hf). exists a'. auto.
Qed.

Lemma toLowerCase_str (v : value) : is_str v -> exists s, toLowerCase v = Ok s.
Proof. intros [s ->]. cbn. eauto. Qed.

(** The scorer returns on every entry whose text fields are strings. *)
Lemma calculateSearchScore_total (g : Game) (term : string) (words : list string) :
  text_typed g -> exists s, calculateSearchScore g term words = Ok s.
Proof.
  intros (Ht & Hd & Hf & Hv & Hg & Hs). unfold calculateSearchScore.
  destruct (toLowerCase_str _ Ht) as [t ->].
  destruct (toLowerCase_str _ Hd) as [d ->].
  destruct (toLowerCase_str _ Hf) as [f ->].
  destruct (toLowerCase_str _ Hv) as [v ->].
  destruct (mapM_ok toLowerCase (Game.genre g)) as [gs ->].
  { eapply Forall_impl; [exact Hg |]. apply toLowerCase_str. }
  destruct (mapM_ok toLowerCase (Game.tags g)) as [ts ->].
  { eapply Forall_impl; [exact Hs |]. apply toLowerCase_str. }
  cbn. eauto.
Qed.


(** *** The three kinds of entries of the tiering *)










Example title_tiering_scores :
  calculateSearchScore exact_title "space" (Str.words "space") = Ok 140 /\
  calculateSearchScore partial_title "space" (Str.words "space") = Ok 100 /\
  calculateSearchScore described "space" (Str.words "space") = Ok 30.
Proof. repeat split; reflexivity. Qed.

(** ** Sorting *)

Section SortFacts.

Context {A : Type}.

Lemma sort_insert_total (cmp : A -> A -> result number) (f : A -> A -> number) x l :
  (forall a b, cmp a b = Ok (f a b)) ->
  sort_insert cmp x l = Ok (insert (fun a b => Num.pos (f a b)) x l).
Proof.
  intros H. induction l as [| y ys IH]; cbn; [reflexivity |].
  rewrite H. cbn. rewrite IH. now destruct (Num.pos (f x y)).
Qed.

Lemma Array_sort_total (cmp : A -> A -> result number) (f : A -> A -> number) l :
  (forall a b, cmp a b = Ok (f a b)) ->
  Array_sort cmp l = Ok (isort (fun a b => Num.pos (f a b)) l).
Proof.
  intros H. induction l as [| x xs IH]; cbn; [reflexivity |].
  rewrite IH. cbn. now apply sort_insert_total.
Qed.

Lemma insert_perm after (x : A) l : Permutation (x :: l) (insert after x l).
Proof.
  induction l as [| y ys IH]; cbn; [reflexivity |].
  destruct (after x y); [| reflexivity].
  rewrite perm_swap. now apply perm_skip.
Qed.

Lemma isort_perm after (l : list A) : Permutation l (isort after l).
Proof.
  induction l as [| x xs IH]; cbn; [reflexivity |].
  rewrite <- insert_perm. now apply perm_skip.
Qed.

(** *** Sorting by a key, ascending *)

Variable key : A -> Z.

Lemma insert_sorted (x : A) l :
  StronglySorted (key_le key) l -> StronglySorted (key_le key) (insert (key_after key) x l).
Proof.
  induction 1 as [| y ys Hs IH Hy]; cbn.
  - repeat constructor.
  - unfold key_after at 1. destruct (key y <? key x) eqn:E.
    + constructor; [exact IH |].
      apply Forall_forall. intros z Hz.
      apply list_elem_of_In in Hz.
      apply (Permutation_in _ (Permutation_sym (insert_perm (key_after key) x ys))) in Hz.
      destruct Hz as [<- | Hz].
      * unfold key_le. lia.
      * rewrite Forall_forall in Hy. apply Hy. now apply list_elem_of_In.
    + constructor; [now constructor |].
      constructor; [unfold key_le; lia |].
      eapply Forall_impl; [exact Hy |]. unfold key_le. intros z Hz. lia.
Qed.

Lemma isort_sorted (l : list A) : StronglySorted (key_le key) (isort (key_after key) l).
Proof.
  induction l as [| x xs IH]; cbn; [constructor | now apply insert_sorted].
Qed.

(** Stability: the entries of one key keep their order. *)
Lemma insert_stable (z : Z) (x : A) l :
  List.filter (fun a => key a =? z) (insert (key_after key) x l) =
  List.filter (fun a => key a =? z) (x :: l).
Proof.
  induction l as [| y ys IH]; [reflexivity |].
  cbn [insert]. unfold key_after at 1. destruct (key y <? key x) eqn:E; [| reflexivity].
  cbn [List.filter] in *. rewrite IH.
  destruct (key x =? z) eqn:Ex, (key y =? z) eqn:Ey; try reflexivity. lia.
Qed.

Lemma isort_stable (z : Z) (l : list A) :
  List.filter (fun a => key a =? z) (isort (key_after key) l) =
  List.filter (fun a => key a =? z) l.
Proof.
  induction l as [| x xs IH]; [reflexivity |].
  cbn [isort]. rewrite insert_stable. cbn [List.filter]. now rewrite IH.
Qed.

End SortFacts.

Lemma isort_map {A B} (f : A -> B) (after : A -> A -> bool) (after' : B -> B -> bool) l :
  (forall a b, after' (f a) (f b) = after a b) ->
  isort after' (List.map f l) = List.map f (isort after l).
Proof.
  intros H. induction l as [| x xs IH]; cbn; [reflexivity |].
  rewrite IH. generalize (isort after xs) as s.
  induction s as [| y ys IHs]; cbn; [reflexivity |].
  rewrite H. destruct (after x y); cbn; [now rewrite IHs | reflexivity].
Qed.

(** ** Text search *)

Lemma trimEnd_nonempty (c : ascii) (r : string) :
  Str.is_ws c = false -> Str.is_empty (Str.trimEnd (String c r)) = false.
Proof.
  intros H. cbn [Str.trimEnd]. destruct (Str.trimEnd r); [now rewrite H | reflexivity].
Qed.

Lemma trim_empty (s : string) : Str.is_empty (Str.trim s) = all_ws s.
Proof.
  unfold Str.trim. induction s as [| c r IH]; [reflexivity |].
  cbn [Str.trimStart all_ws]. destruct (Str.is_ws c) eqn:E; cbn [andb].
  - exact IH.
  - now apply trimEnd_nonempty.
Qed.

Lemma blank_query (query : string) :
  (Str.is_empty query || Str.is_empty (Str.trim query))%bool = all_ws query.
Proof.
  rewrite trim_empty. destruct query; reflexivity.
Qed.

(** The scored list of [searchGames], when the scorer returns on each entry *)
Lemma scored_typed (games : list Game) (term : string) (words : list string) :
  Forall text_typed games ->
  mapM (fun game =>
          let* score := calculateSearchScore game term words in
          Ok (game, score)) games =
  Ok (List.map (fun g => (g, match calculateSearchScore g term words with
                            | Ok s => s
                            | Throw _ => 0
                            end)) games).
Proof.
  induction 1 as [| g games Hg _ IH]; [reflexivity |].
  cbn [mapM List.map]. rewrite IH.
  destruct (calculateSearchScore_total g term words Hg) as [s ->]. reflexivity.
Qed.

Lemma filter_map_comm {A B} (f : A -> B) (p : B -> bool) (l : list A) :
  List.filter p (List.map f l) = List.map f (List.filter (fun a => p (f a)) l).
Proof.
  induction l as [| a l IH]; cbn; [reflexivity |].
  destruct (p (f a)); cbn; now rewrite IH.
Qed.

Lemma map_fst_pair {A B} (f : A -> B) (l : list A) :
  List.map fst (List.map (fun a => (a, f a)) l) = l.
Proof. induction l as [| a l IH]; cbn; [reflexivity | now rewrite IH]. Qed.

Lemma pos_of_Z (z : Z) : Num.pos (Num.of_Z z) = (0 <? z).
Proof.
  unfold Num.pos, Num.of_Z, Qle_bool, inject_Z. cbn [Qnum Qden].
  rewrite Z.mul_1_r. cbn [Z.mul Z.of_nat Pos.to_nat].
  destruct (Z.leb_spec z 0), (Z.ltb_spec 0 z); cbn; lia || reflexivity.
Qed.

(** What [searchGames] returns for a query that is not blank: the entries
    of positive relevance, sorted by the stable sort on the negated score. *)
Lemma searchGames_sorted_filter (games : list Game) (query : string) :
  Forall text_typed games -> all_ws query = false ->
  searchGames games query =
  Ok (isort (key_after (fun g => - relevance query g))
        (List.filter (fun g => 0 <? relevance query g) games)).
Proof.
  intros Ht Hq. unfold searchGames. rewrite blank_query, Hq.
  cbv zeta. rewrite (scored_typed _ _ _ Ht). cbn [bind].
  rewrite (Array_sort_total _ (fun a b => Num.of_Z (snd b - snd a))) by reflexivity.
  cbn [bind]. f_equal.
  rewrite filter_map_comm. cbn [snd].
  change (fun a => 0 <? match calculateSearchScore a _ _ with Ok s => s | Throw _ => 0 end)
    with (fun a => 0 <? relevance query a).
  change (fun g => (g, match calculateSearchScore g _ _ with Ok s => s | Throw _ => 0 end))
    with (fun g => (g, relevance query g)).
  rewrite (isort_map (fun g => (g, relevance query g))
             (key_after (fun g => - relevance query g))).
  - apply map_fst_pair.
  - intros a b. unfold key_after. cbn [snd]. rewrite pos_of_Z.
    destruct (Z.ltb_spec 0 (relevance query b - relevance query a)),
      (Z.ltb_spec (- relevance query b) (- relevance query a)); lia || reflexivity.
Qed.

Lemma StronglySorted_impl {A} (R R' : A -> A -> Prop) (l : list A) :
  (forall a b, R a b -> R' a b) -> StronglySorted R l -> StronglySorted R' l.
Proof.
  intros H. induction 1 as [| a l _ IH Ha]; constructor; [exact IH |].
  eapply Forall_impl; [exact Ha | auto].
Qed.


Lemma filter_ext_key {A} (p q : A -> bool) (l : list A) :
  (forall a, p a = q a) -> List.filter p l = List.filter q l.
Proof.
  intros H. induction l as [| a l IH]; cbn; [reflexivity |]. now rewrite H, IH.
Qed.



Example searchGames_order :
  searchGames [described; partial_title; exact_title; partial_title] "Space " =
  Ok [exact_title; partial_title; partial_title; described] /\
  searchGames [described; exact_title] "   " = Ok [described; exact_title] /\
  searchGames [described; exact_title] "zzz" = Ok [].
Proof. repeat split; reflexivity. Qed.

(** ** The filters of advancedSearch *)

Section ArrayFacts.

Context {A : Type}.

Lemma sort_insert_perm (cmp : A -> A -> result number) x l r :
  sort_insert cmp x l = Ok r -> Permutation (x :: l) r.
Proof.
  revert r. induction l as [| y ys IH]; intros r; cbn.
  - now intros [= <-].
  - destruct (cmp x y) as [c |]; cbn; [| discriminate].
    destruct (Num.pos c).
    + destruct (sort_insert cmp x ys) as [r0 |]; cbn; [| discriminate].
      intros [= <-]. rewrite perm_swap. apply perm_skip. now apply IH.
    + now intros [= <-].
Qed.

Lemma Array_sort_perm (cmp : A -> A -> result number) l r :
  Array_sort cmp l = Ok r -> Permutation l r.
Proof.
  revert r. induction l as [| x xs IH]; intros r; cbn.
  - now intros [= <-].
  - destruct (Array_sort cmp xs) as [s |]; cbn; [| discriminate].
    intros H. apply sort_insert_perm in H. rewrite <- H. apply perm_skip. now apply IH.
Qed.

(** The comparator is only ever called with the inserted element on the
    left. *)
Lemma Array_sort_total_on (P : A -> Prop) (cmp : A -> A -> result number)
    (f : A -> A -> number) l :
  (forall a b, P a -> cmp a b = Ok (f a b)) -> Forall P l ->
  Array_sort cmp l = Ok (isort (fun a b => Num.pos (f a b)) l).
Proof.
  intros H. induction 1 as [| x xs Hx _ IH]; cbn; [reflexivity |].
  rewrite IH. cbn. generalize (isort (fun a b => Num.pos (f a b)) xs) as s.
  induction s as [| y ys IHs]; cbn; [reflexivity |].
  rewrite (H x y Hx). cbn. rewrite IHs. now destruct (Num.pos (f x y)).
Qed.


Lemma Array_filter_total (P : A -> Prop) (p : A -> result bool) l :
  (forall a, P a -> exists b, p a = Ok b) -> Forall P l ->
  exists r, Array_filter p l = Ok r /\ forall x, In x r -> In x l.
Proof.
  intros H. induction 1 as [| a l Ha _ (r & Hr & Hin)]; cbn.
  - exists []. split; [reflexivity | intros x []].
  - destruct (H a Ha) as [b ->]. rewrite Hr. cbn. eexists. split; [reflexivity |].
    intros x Hx. destruct b; [destruct Hx as [<- | Hx] |]; auto.
Qed.


Lemma Array_some_total (P : A -> Prop) (p : A -> result bool) l :
  (forall a, P a -> exists b, p a = Ok b) -> Forall P l -> exists b, Array_some p l = Ok b.
Proof.
  intros H. induction 1 as [| a l Ha _ [b IH]]; cbn; [eauto |].
  destruct (H a Ha) as [[|] ->]; cbn; eauto.
Qed.

End ArrayFacts.

Lemma searchGames_incl (games : list Game) (query : string) (r : list Game) :
  searchGames games query = Ok r -> forall g, In g r -> In g games.
Proof.
  unfold searchGames.
  destruct (Str.is_empty query || Str.is_empty (Str.trim query))%bool.
  - now intros [= <-].
  - cbv zeta.
    destruct (mapM _ games) as [scored |] eqn:Hs; cbn [bind]; [| discriminate].
    destruct (Array_sort _ _) as [sorted |] eqn:Hsort; cbn [bind]; [| discriminate].
    intros [= <-] g Hg.
    apply in_map_iff in Hg. destruct Hg as ([g' s] & <- & Hin). cbn [fst].
    apply Array_sort_perm in Hsort.
    apply (Permutation_in _ (Permutation_sym Hsort)) in Hin.
    apply filter_In in Hin. destruct Hin as [Hin _].
    destruct (mapM_In _ _ _ Hs _ Hin) as (a & Ha & Hf).
    destruct (calculateSearchScore a _ _); cbn in Hf; [| discriminate].
    now injection Hf as -> _.
Qed.

Lemma searchGames_total (games : list Game) (query : string) :
  Forall text_typed games -> exists r, searchGames games query = Ok r.
Proof.
  intros Ht. destruct (all_ws query) eqn:Hq.
  - exists games. unfold searchGames. now rewrite blank_query, Hq.
  - rewrite searchGames_sorted_filter by assumption. eauto.
Qed.


Section FilterFacts.

Context {host : Host}.

Lemma sort_comparator_typed (sortBy order : string) (a b : Game) :
  text_typed a -> sort_comparator sortBy order a b = Ok (comparison sortBy order a b).
Proof.
  intros ([t Ht] & _). unfold comparison, sort_comparator. rewrite Ht.
  destruct (Str.eqb sortBy "rating"); [reflexivity |].
  destruct (Str.eqb sortBy "title"); [reflexivity |].
  destruct (Str.eqb sortBy "releaseDate"); [reflexivity |].
  destruct (Str.eqb sortBy "reviewCount"); reflexivity.
Qed.

Lemma sortGames_typed (games : list Game) (sortBy order : string) :
  Forall text_typed games ->
  sortGames games sortBy order =
  Ok (isort (fun a b => Num.pos (comparison sortBy order a b)) games).
Proof.
  intros Ht. unfold sortGames.
  apply (Array_sort_total_on text_typed); [| exact Ht].
  intros a b Ha. now apply sort_comparator_typed.
Qed.


Lemma genre_matches_total (genre : string) (g : Game) :
  text_typed g -> exists b, genre_matches genre g = Ok b.
Proof.
  intros (_ & _ & _ & _ & Hg & _). unfold genre_matches.
  apply (Array_some_total is_str); [| exact Hg].
  intros v [s ->]. cbn. eauto.
Qed.

Lemma Forall_incl {A} (P : A -> Prop) (l r : list A) :
  Forall P l -> (forall x, In x r -> In x l) -> Forall P r.
Proof.
  rewrite !Forall_forall. intros H Hin x Hx.
  apply H, list_elem_of_In, Hin, list_elem_of_In, Hx.
Qed.

End FilterFacts.

Section AdvancedSearch.

Context {host : Host}.

Lemma advancedSearch_stages (games : list Game) (filters : Filters.t) :
  advancedSearch games filters =
  (let* g1 := stage_text filters games in
   let* g2 := stage_genre filters g1 in
   stage_sort filters (stage_rating filters g2)).
Proof. reflexivity. Qed.

Lemma stage_text_incl filters games r :
  stage_text filters games = Ok r -> forall g, In g r -> In g games.
Proof.
  unfold stage_text. destruct (set_string _) as [q |]; [| now intros [= <-]].
  destruct (Str.is_empty (Str.trim q)); [now intros [= <-] |].
  apply searchGames_incl.
Qed.


Lemma stage_rating_In filters games g :
  In g (stage_rating filters games) ->
  In g games /\
  (forall m, Filters.minRating filters = Some m -> Num.le m (Game.rating g)) /\
  (forall m, Filters.maxRating filters = Some m -> Num.le (Game.rating g) m).
Proof.
  unfold stage_rating, Num.le, Num.geb.
  destruct (Filters.minRating filters) as [lo |], (Filters.maxRating filters) as [hi |];
    rewrite ?filter_In; intros H; repeat split;
    try discriminate; try tauto;
    intros m [= <-]; tauto.
Qed.



End AdvancedSearch.


(** The scenario of the specification, under any host *)
Example advancedSearch_scenario (host : Host) :
  let ids := fun r => match r with
                      | Ok l => Some (List.map Game.id l)
                      | Throw _ => None
                      end in
  ids (advancedSearch scenario
         {| Filters.query := Some "space"; Filters.genre := None; Filters.minRating := None;
            Filters.maxRating := None; Filters.sortBy := None; Filters.sortOrder := None |})
  = Some [VStr "a"] /\
  ids (advancedSearch scenario
         {| Filters.query := None; Filters.genre := Some "Puzzle"; Filters.minRating := None;
            Filters.maxRating := None; Filters.sortBy := None; Filters.sortOrder := None |})
  = Some [VStr "b"] /\
  ids (advancedSearch scenario
         {| Filters.query := None; Filters.genre := None; Filters.minRating := Some (Fin 4);
            Filters.maxRating := None; Filters.sortBy := None; Filters.sortOrder := None |})
  = Some [VStr "a"] /\
  ids (advancedSearch scenario
         {| Filters.query := Some "zzz"; Filters.genre := None; Filters.minRating := None;
            Filters.maxRating := None; Filters.sortBy := None; Filters.sortOrder := None |})
  = Some [].
Proof. repeat split; reflexivity. Qed.

(** The entries of the scenario are what the constructor makes of its
    rows; without filters the catalog comes back as it is. *)
Example scenario_built (host : Host) :
  build_games (VObj [("games", VArr [VObj space_raiders; VObj puzzle_quest])]) = Ok scenario /\
  advancedSearch scenario no_filters = Ok scenario.
Proof. split; reflexivity. Qed.

(** An empty string for the genre filters nothing. *)
Example advancedSearch_empty_genre (host : Host) :
  advancedSearch scenario
    {| Filters.query := None; Filters.genre := Some ""; Filters.minRating := None;
       Filters.maxRating := None; Filters.sortBy := None; Filters.sortOrder := None |}
  = Ok scenario.
Proof. reflexivity. Qed.

(** ** Sorting by release date *)

Lemma isort_In {A} (after : A -> A -> bool) (l : list A) (x : A) :
  In x (isort after l) -> In x l.
Proof. apply Permutation_in, Permutation_sym, isort_perm. Qed.

Lemma insert_ext_on {A} (after after' : A -> A -> bool) (x : A) (l : list A) :
  (forall b, In b l -> after x b = after' x b) -> insert after x l = insert after' x l.
Proof.
  induction l as [| y ys IH]; intros H; cbn; [reflexivity |].
  rewrite (H y (or_introl eq_refl)), IH by (intros b Hb; apply H; now right).
  reflexivity.
Qed.

Lemma isort_ext_on {A} (after after' : A -> A -> bool) (l : list A) :
  (forall a b, In a l -> In b l -> after a b = after' a b) ->
  isort after l = isort after' l.
Proof.
  induction l as [| x xs IH]; intros H; cbn; [reflexivity |].
  rewrite IH by (intros a b Ha Hb; apply H; now right).
  apply insert_ext_on. intros b Hb. apply H; [now left |].
  right. now apply (isort_In after' xs).
Qed.




Section ReleaseDate.

Context {host : Host}.




End ReleaseDate.

(** The entry dated one millisecond before the epoch goes in front of the
    entry without a date, under any host. *)
Example sortGames_before_epoch (host : Host) :
  sortGames [no_date; after_epoch; before_epoch] "releaseDate" "asc" =
  Ok [before_epoch; no_date; after_epoch] /\
  sortGames [before_epoch; no_date; after_epoch] "releaseDate" "desc" =
  Ok [after_epoch; no_date; before_epoch].
Proof. split; reflexivity. Qed.



(** ** Loading, the session memo and the cache *)

Section LoaderFacts.

Context {host : Host}.

(** After a fetch that went well, the manager holds the games built. *)
Lemma loadGames_fetch_ok m w now resp c m1 w1 :
  loadGames_fetch m w now resp = (Ok c, m1, w1) ->
  exists gs,
    built resp gs /\
    c = Instances gs /\ m1 = {| games := Instances gs; isLoaded := true |} /\
    w1 = {| storage := setCachedData (storage w) gs now; fetches := S (fetches w) |}.
Proof.
  unfold loadGames_fetch, built.
  destruct resp as [e | [|] status [data | e]]; cbn [bind]; try discriminate.
  destruct (truthy data); [| discriminate].
  destruct (build_games data) as [gs | e] eqn:Hb; [| discriminate].
  intros [= <- <- <-]. exists gs. eauto 10.
Qed.

Lemma loadGames_fetch_throw m w now resp e m1 w1 :
  loadGames_fetch m w now resp = (Throw e, m1, w1) ->
  m1 = m /\ w1 = {| storage := storage w; fetches := S (fetches w) |}.
Proof.
  unfold loadGames_fetch.
  match goal with |- context [match ?b with Ok _ => _ | Throw _ => _ end] =>
    destruct b as [gs | e'] end.
  - discriminate.
  - intros [= _ <- <-]. auto.
Qed.

Lemma loadGames_ok m w now resp c m1 w1 :
  loadGames m w now resp = (Ok c, m1, w1) -> served m w now resp c m1 w1.
Proof.
  unfold loadGames.
  destruct (isLoaded m && length_pos (games m))%bool eqn:Hmemo.
  - intros [= <- <- <-]. apply andb_true_iff in Hmemo as [? ?].
    now apply from_memo.
  - destruct (getCachedData (storage w) now) as [cached st] eqn:Hc.
    assert (Hnet : forall w0, storage w0 = st -> fetches w0 = fetches w ->
              (let '(r, m, w) := loadGames_fetch m w0 now resp in
               match r with
               | Ok c => (Ok c, m, w)
               | Throw e => (Throw (GameDataError e), m, w)
               end) = (Ok c, m1, w1) -> served m w now resp c m1 w1).
    { intros w0 Hs Hf.
      destruct (loadGames_fetch m w0 now resp) as [[r m'] w'] eqn:Hl.
      destruct r as [c' | e]; [| discriminate]. intros [= <- <- <-].
      destruct (loadGames_fetch_ok _ _ _ _ _ _ _ Hl) as (gs & Hb & -> & -> & ->).
      apply (from_network _ _ _ _ _ _ _ gs); rewrite ?Hc; cbn; congruence. }
    destruct cached as [v |].
    + destruct (truthy v) eqn:Hv.
      * intros [= <- <- <-]. now apply (from_cache _ _ _ _ _ _ _ v).
      * now apply Hnet.
    + now apply Hnet.
Qed.

Lemma served_loaded m w now resp c m1 w1 :
  served m w now resp c m1 w1 ->
  isLoaded m1 = true /\ games m1 = c /\ (fetches w1 <= S (fetches w))%nat.
Proof.
  intros [? ? -> -> -> | v ? ? -> -> -> | gs ? -> -> ? ->]; cbn; auto.
Qed.

End LoaderFacts.

(** C8, amended.  When a call of [loadGames] returned a catalog that is not
    empty, the next call (with no [refreshData] in between) returns the
    same catalog from the memo, whatever the time and the network: it
    leaves the manager, the storage and the number of fetches as they
    were, so the two calls fetched at most once. *)
Theorem loadGames_memo {host : Host} (m : Manager) (w : World) (now : Z) (resp : response)
    (c : catalog) (m1 : Manager) (w1 : World) :
  loadGames m w now resp = (Ok c, m1, w1) ->
  length_pos c = true ->
  forall now' resp',
    loadGames m1 w1 now' resp' = (Ok c, m1, w1) /\
    (fetches w1 <= S (fetches w))%nat.
Proof.
  intros H Hlen now' resp'.
  destruct (served_loaded _ _ _ _ _ _ _ (loadGames_ok _ _ _ _ _ _ _ H)) as (Hl & Hg & Hf).
  split; [| exact Hf].
  unfold loadGames. now rewrite Hl, Hg, Hlen.
Qed.

(** With the storage out of use and an empty catalog, each call fetches. *)
Example loadGames_empty_twice (host : Host) :
  let w := {| storage := blocked_storage; fetches := 0 |} in
  let '(r1, m1, w1) := loadGames new_Manager w 1000 (document []) in
  let '(r2, m2, w2) := loadGames m1 w1 2000 (document []) in
  r1 = Ok (Instances []) /\ r2 = Ok (Instances []) /\ fetches w2 = 2%nat.
Proof. repeat split; reflexivity. Qed.

(** C8 fails as stated: two calls in a row can fetch twice. *)
Lemma loadGames_fetches_twice :
  ~ (forall (host : Host) (c : catalog) (m1 : Manager) (w1 : World),
       loadGames new_Manager {| storage := blocked_storage; fetches := 0 |} 1000
         (document []) = (Ok c, m1, w1) ->
       exists m2 w2,
         loadGames m1 w1 2000 (document []) = (Ok c, m2, w2) /\
         (fetches w2 <= 1)%nat).
Proof.
  intros H.
  destruct (H example_host _ _ _ eq_refl) as (m2 & w2 & E & Hf).
  injection E as <- <-. cbn in Hf. lia.
Qed.

Lemma loadGames_memo_witness :
  exists c m1 w1,
    loadGames (host := example_host) new_Manager {| storage := empty_storage; fetches := 0 |}
      1000 (document [VObj space_raiders]) = (Ok c, m1, w1) /\
    loadGames (host := example_host) m1 w1 2000 (Rejected TypeError) = (Ok c, m1, w1).
Proof.
  eexists. eexists. eexists. split; [reflexivity |].
  apply (loadGames_memo (host := example_host) new_Manager
           {| storage := empty_storage; fetches := 0 |} 1000 (document [VObj space_raiders]));
    reflexivity.
Defined.

Section RefreshFacts.

Context {host : Host}.

(** After [clearCache] there is nothing to read, and a second [clearCache]
    changes nothing. *)
Lemma clearCache_disabled (st : Storage) : disabled st = true -> clearCache st = st.
Proof.
  intros D. unfold clearCache, localStorage.removeItem. now rewrite D.
Qed.

Lemma clearCache_enabled (st : Storage) :
  disabled st = false ->
  clearCache st =
  {| disabled := false; full := full st;
     items := delete cacheTimestampKey (delete cacheKey (items st)) |}.
Proof.
  intros D. unfold clearCache, localStorage.removeItem. rewrite D. reflexivity.
Qed.

Lemma getCachedData_cleared (st : Storage) (now : Z) :
  getCachedData (clearCache st) now = (None, clearCache st).
Proof.
  destruct (disabled st) eqn:D.
  - rewrite (clearCache_disabled st D).
    unfold getCachedData, localStorage.getItem. rewrite D. cbn [bind].
    now rewrite (clearCache_disabled st D).
  - rewrite (clearCache_enabled st D).
    unfold getCachedData, localStorage.getItem. cbn [disabled items bind].
    rewrite lookup_delete_ne by (unfold cacheKey, cacheTimestampKey; discriminate).
    rewrite lookup_delete_eq. reflexivity.
Qed.

(** C2, amended.  [refreshData] clears the cache and the memo before it
    loads again.  When the load then fails, the manager is left as a new
    one, with an empty catalog and [isLoaded] false; the cache record is
    gone and one fetch was made. *)
Theorem refreshData_failure (m : Manager) (w : World) (now : Z) (resp : response)
    (e : exn) (m1 : Manager) (w1 : World) :
  refreshData m w now resp = (Throw e, m1, w1) ->
  m1 = new_Manager /\
  storage w1 = clearCache (storage w) /\
  fetches w1 = S (fetches w).
Proof.
  unfold refreshData, loadGames. cbn [isLoaded games storage fetches andb].
  rewrite getCachedData_cleared.
  destruct (loadGames_fetch _ _ now resp) as [[r m'] w'] eqn:Hl.
  destruct r as [c | e']; [discriminate |]. intros [= _ <- <-].
  destruct (loadGames_fetch_throw _ _ _ _ _ _ _ Hl) as [-> ->]. cbn. auto.
Qed.

End RefreshFacts.

(** A refresh that fails on the network, under any host *)
Example refreshData_offline (host : Host) :
  refreshData loaded {| storage := empty_storage; fetches := 1 |} 5000 (Rejected TypeError) =
  (Throw (GameDataError TypeError), new_Manager,
   {| storage := empty_storage; fetches := 2 |}).
Proof. reflexivity. Qed.

(** C2 fails as stated: after a failed refresh the catalog loaded before
    is gone. *)
Lemma refreshData_clears_catalog :
  ~ (forall (host : Host) (e : exn) (m1 : Manager) (w1 : World),
       refreshData loaded {| storage := empty_storage; fetches := 1 |} 5000
         (Rejected TypeError) = (Throw e, m1, w1) ->
       games m1 = games loaded).
Proof.
  intros H.
  specialize (H example_host _ _ _ eq_refl).
  discriminate H.
Qed.

Lemma refreshData_failure_witness :
  exists m1 w1,
    refreshData (host := example_host) loaded {| storage := empty_storage; fetches := 1 |}
      5000 (Rejected TypeError) = (Throw (GameDataError TypeError), m1, w1) /\
    m1 = new_Manager.
Proof.
  eexists. eexists. split; [reflexivity |].
  apply (refreshData_failure (host := example_host) loaded
           {| storage := empty_storage; fetches := 1 |} 5000 (Rejected TypeError)
           (GameDataError TypeError) _ _ eq_refl).
Defined.

Section CacheFacts.

Context {host : Host}.


Lemma getCachedData_storage (st : Storage) (now : Z) :
  snd (getCachedData st now) = st \/ snd (getCachedData st now) = clearCache st.
Proof.
  unfold getCachedData, localStorage.getItem.
  destruct (disabled st); cbn [bind snd]; [auto |].
  destruct (items st !! cacheKey) as [d |]; [| auto].
  destruct (items st !! cacheTimestampKey) as [t |]; [| auto].
  destruct (text_truthy d && text_truthy t)%bool; [| auto].
  destruct (expired now (text_parseInt t)); [auto |].
  destruct (text_JSON_parse d); auto.
Qed.


Lemma setCachedData_items (st : Storage) (gs : list Game) (now : Z) :
  disabled st = false -> full st = false ->
  items (setCachedData st gs now) !! cacheKey = Some (Stringified gs) /\
  items (setCachedData st gs now) !! cacheTimestampKey = Some (Decimal now).
Proof.
  intros D F. unfold setCachedData, localStorage.setItem. rewrite D, F. cbn. split.
  - rewrite lookup_insert_ne by (unfold cacheKey, cacheTimestampKey; discriminate).
    apply lookup_insert_eq.
  - apply lookup_insert_eq.
Qed.


End CacheFacts.

(** A load from the network, then a load in a new session an hour later: the
    first returns a [Game] whose release date is a [Date], the second the
    plain object parsed from the cache, whose release date is what
    [toJSON] made of it, a string or [null].  Under any host. *)
Example loadGames_served_from_cache (host : Host) :
  let '(r1, m1, w1) := loadGames new_Manager fresh_world 1000 (document [dated_row]) in
  let '(r2, m2, w2) := loadGames new_Manager w1 3601000 (Rejected TypeError) in
  (exists g, r1 = Ok (Instances [g]) /\
             Game.releaseDate g = Some {| time := Date_parse "2020-01-01" |} /\
             r2 = Ok (Plain (VArr [Game_toJSON g])) /\
             match Game_toJSON g with
             | VObj ps => In ("releaseDate", Date_toJSON (Game.releaseDate g)) ps
             | _ => False
             end) /\
  fetches w2 = 1%nat.
Proof.
  vm_compute. split; [| reflexivity]. eexists.
  split; [reflexivity |]. split; [reflexivity |]. split; [reflexivity |].
  cbn. tauto.
Qed.



(** ** The debouncer *)

Section DebounceFacts.

Context {A : Type}.

Import Debouncer.

Lemma execute_single_slot (d : Debouncer.t) (l : Loop A) (now : Z) (args : A) :
  single_slot d l ->
  let '(d', l') := execute d (run_until l now) now args in
  delay d' = delay d /\
  calls l' = (calls l ++ flush (pending l) now)%list /\
  pending l' = [(next_id l, now + Z.max 0 (delay d), args)] /\
  timeoutId d' = Some (next_id l).
Proof.
  intros Hs. unfold execute, setTimeout. cbn [fst snd].
  assert (Hp : pending (clearTimeout (run_until l now) (timeoutId d)) = []).
  { destruct Hs as [Hp | (i & due & v & Hi & Hp)].
    - unfold clearTimeout, run_until. rewrite Hp.
      destruct (timeoutId d); reflexivity.
    - unfold clearTimeout, run_until. rewrite Hi, Hp. cbn.
      destruct (due <=? now); cbn; [reflexivity |].
      now rewrite Nat.eqb_refl. }
  assert (Hc : calls (clearTimeout (run_until l now) (timeoutId d)) =
               (calls l ++ flush (pending l) now)%list)
    by (destruct (timeoutId d); reflexivity).
  assert (Hn : next_id (clearTimeout (run_until l now) (timeoutId d)) = next_id l)
    by (destruct (timeoutId d); reflexivity).
  cbn. rewrite Hp, Hc, Hn. auto.
Qed.

Lemma session_calls (events : list (Z * A)) (stop : Z) (d : Debouncer.t) (l : Loop A) :
  single_slot d l ->
  calls (run_until (snd (session d l events)) stop) =
  (calls l ++ flush (pending l) (next_time events stop) ++ settled (delay d) events stop)%list.
Proof.
  revert d l. induction events as [| [now args] rest IH]; intros d l Hs.
  - cbn. now rewrite app_nil_r.
  - cbn [session next_time settled].
    pose proof (execute_single_slot d l now args Hs) as He.
    destruct (execute d (run_until l now) now args) as [d' l'].
    destruct He as (Hd & Hc & Hp & Hi).
    rewrite IH by (right; eauto).
    rewrite Hc, Hp, Hd. unfold flush at 2. cbn [List.filter List.map fst snd].
    fold (next_time rest stop).
    rewrite <- !app_assoc. f_equal. f_equal.
    destruct (now + Z.max 0 (delay d) <=? next_time rest stop); reflexivity.
Qed.

Lemma fired_settled (delay : Z) (events : list (Z * A)) (stop : Z) :
  fired delay events stop = settled delay events stop.
Proof.
  unfold fired.
  pose proof (session_calls events stop (new delay) idle (or_introl eq_refl)) as H.
  destruct (session (new delay) idle events) as [d l]. exact H.
Qed.

(** A burst of calls leads to one run, a delay after its last call and
    with the value of that call. *)
Lemma burst_runs_once (delay : Z) (events : list (Z * A)) (now : Z) (args : A) (stop : Z) :
  burst delay (events ++ [(now, args)]) ->
  now + Z.max 0 delay <= stop ->
  fired delay (events ++ [(now, args)]) stop = [(now + Z.max 0 delay, args)].
Proof.
  intros Hb Hstop. rewrite fired_settled.
  induction events as [| [t v] rest IH].
  - cbn. destruct (Z.leb_spec (now + Z.max 0 delay) stop); [reflexivity | lia].
  - change (((t, v) :: rest) ++ [(now, args)])%list
      with ((t, v) :: (rest ++ [(now, args)]))%list in *.
    cbn [settled]. cbn [burst] in Hb.
    destruct (rest ++ [(now, args)])%list as [| [next u] tl] eqn:E.
    + destruct rest; discriminate E.
    + destruct Hb as [Hlt Hb]. rewrite (IH Hb).
      destruct (Z.leb_spec (t + Z.max 0 delay) next); [lia | reflexivity].
Qed.

(** C10.  The runs of the wrapped function are those of the calls that
    settled: a call of [execute] at [now] leads to one run, at [now] plus
    the delay and with the value of that call, when the next call comes no
    sooner than that (or, for the last call, when the loop runs that far),
    and to none otherwise.  With a delay of 300 and calls at 0, 100 and 200
    with "a", "ab" and "abc", the function runs once, at 500, with "abc". *)
Theorem debounce_settles :
  (forall (delay : Z) (events : list (Z * A)) (stop : Z),
     fired delay events stop = settled delay events stop) /\
  fired 300 [(0, "a"); (100, "ab"); (200, "abc")] 1000 = [(500, "abc")].
Proof.
  split; [apply fired_settled | reflexivity].
Qed.

End DebounceFacts.

(** ** The cache record *)

Section CacheRecord.

Context {host : Host}.

(** [getCachedData] on a storage that holds both texts *)
Lemma getCachedData_record (st : Storage) (now : Z) (d t : text) :
  disabled st = false ->
  items st !! cacheKey = Some d -> items st !! cacheTimestampKey = Some t ->
  text_truthy d = true -> text_truthy t = true ->
  getCachedData st now =
  if expired now (text_parseInt t) then (None, clearCache st)
  else match text_JSON_parse d with
       | Some v => (Some v, st)
       | None => (None, clearCache st)
       end.
Proof.
  intros D Hd Ht Td Tt. unfold getCachedData, localStorage.getItem.
  rewrite D. cbn [bind]. rewrite Hd, Ht, Td, Tt. cbn [andb].
  destruct (expired now (text_parseInt t)); [reflexivity |].
  destruct (text_JSON_parse d); reflexivity.
Qed.

Lemma setCachedData_writable (st : Storage) (gs : list Game) (now : Z) :
  disabled st = false -> full st = false ->
  disabled (setCachedData st gs now) = false /\
  items (setCachedData st gs now) !! cacheKey = Some (Stringified gs) /\
  items (setCachedData st gs now) !! cacheTimestampKey = Some (Decimal now).
Proof.
  intros D F. split; [| now apply setCachedData_items].
  unfold setCachedData, localStorage.setItem. rewrite D, F. reflexivity.
Qed.

Lemma clearCache_lookup (st : Storage) :
  disabled st = false ->
  items (clearCache st) !! cacheKey = None /\
  items (clearCache st) !! cacheTimestampKey = None.
Proof.
  intros D. rewrite (clearCache_enabled st D). cbn [items]. split.
  - rewrite lookup_delete_ne by (unfold cacheKey, cacheTimestampKey; discriminate).
    apply lookup_delete_eq.
  - apply lookup_delete_eq.
Qed.

(** X1.  A record written by [setCachedData] at [now] is read back by
    [getCachedData] at [now'] as the plain objects of the games, the storage
    left as it is, as long as no more than the time to live has passed;
    after that the read gives nothing and removes both texts.  The record
    is still served exactly twenty-four hours after it was written. *)
Theorem cache_round_trip (st : Storage) (gs : list Game) (now now' : Z) :
  disabled st = false -> full st = false ->
  let written := setCachedData st gs now in
  (now' - now <= cacheTTL ->
   getCachedData written now' = (Some (VArr (List.map Game_toJSON gs)), written)) /\
  (cacheTTL < now' - now ->
   fst (getCachedData written now') = None /\
   items (snd (getCachedData written now')) !! cacheKey = None /\
   items (snd (getCachedData written now')) !! cacheTimestampKey = None).
Proof.
  intros D F written.
  destruct (setCachedData_writable st gs now D F) as (D' & Hd & Ht).
  fold written in D', Hd, Ht.
  pose proof (getCachedData_record written now' _ _ D' Hd Ht eq_refl eq_refl) as H.
  cbn [text_parseInt expired text_JSON_parse] in H.
  split; intros Hage.
  - rewrite H. destruct (Z.ltb_spec cacheTTL (now' - now)); [lia | reflexivity].
  - rewrite H. destruct (Z.ltb_spec cacheTTL (now' - now)); [| lia].
    cbn [fst snd]. split; [reflexivity |]. now apply clearCache_lookup.
Qed.

(** X2.  A record whose payload is not valid JSON is given up: the read
    returns nothing and removes both texts. *)
Theorem corrupt_cache_purged (st : Storage) (now : Z) (s : string) (t : text) :
  disabled st = false ->
  items st !! cacheKey = Some (Raw s) -> items st !! cacheTimestampKey = Some t ->
  s <> "" -> text_truthy t = true ->
  JSON_parse s = None ->
  getCachedData st now = (None, clearCache st) /\
  items (clearCache st) !! cacheKey = None /\
  items (clearCache st) !! cacheTimestampKey = None.
Proof.
  intros D Hd Ht Hs Tt Hp.
  split; [| now apply clearCache_lookup].
  rewrite (getCachedData_record st now _ _ D Hd Ht); [| now destruct s | exact Tt].
  cbn [text_JSON_parse]. rewrite Hp. now destruct (expired now (text_parseInt t)).
Qed.

(** X3.  A record whose time stamp does not read as an integer never
    expires: it is served at any time. *)
Theorem unreadable_timestamp_never_expires (st : Storage) (d t : text) (v : value) :
  disabled st = false ->
  items st !! cacheKey = Some d -> items st !! cacheTimestampKey = Some t ->
  text_truthy d = true -> text_truthy t = true ->
  text_parseInt t = None -> text_JSON_parse d = Some v ->
  forall now, getCachedData st now = (Some v, st).
Proof.
  intros D Hd Ht Td Tt Hn Hp now.
  rewrite (getCachedData_record st now _ _ D Hd Ht Td Tt), Hn, Hp. reflexivity.
Qed.

End CacheRecord.

(** ** What the loader leaves alone *)

Section OtherKeys.

Context {host : Host}.

Implicit Types (st : Storage) (k : string).

Lemma clearCache_other st k : other_key k -> items (clearCache st) !! k = items st !! k.
Proof.
  intros [H1 H2]. destruct (disabled st) eqn:D.
  - now rewrite (clearCache_disabled st D).
  - rewrite (clearCache_enabled st D). cbn [items].
    rewrite !lookup_delete_ne by congruence. reflexivity.
Qed.

Lemma setCachedData_other st gs now k :
  other_key k -> items (setCachedData st gs now) !! k = items st !! k.
Proof.
  intros [H1 H2]. unfold setCachedData, localStorage.setItem.
  destruct (disabled st || full st)%bool; [reflexivity |]. cbn.
  destruct (disabled st || full st)%bool; cbn;
    rewrite ?lookup_insert_ne by congruence; reflexivity.
Qed.

Lemma getCachedData_other st now k :
  other_key k -> items (snd (getCachedData st now)) !! k = items st !! k.
Proof.
  intros Hk. destruct (getCachedData_storage st now) as [-> | ->];
    [reflexivity | now apply clearCache_other].
Qed.

Lemma loadGames_storage m w now resp r m1 w1 :
  loadGames m w now resp = (r, m1, w1) ->
  storage w1 = storage w \/
  storage w1 = snd (getCachedData (storage w) now) \/
  exists gs, storage w1 = setCachedData (snd (getCachedData (storage w) now)) gs now.
Proof.
  unfold loadGames.
  destruct (isLoaded m && length_pos (games m))%bool.
  - intros [= _ _ <-]. auto.
  - destruct (getCachedData (storage w) now) as [cached st] eqn:Hc. cbn [snd].
    assert (Hnet : forall w0, storage w0 = st ->
              (let '(r, m, w) := loadGames_fetch m w0 now resp in
               match r with
               | Ok c => (Ok c, m, w)
               | Throw e => (Throw (GameDataError e), m, w)
               end) = (r, m1, w1) ->
              storage w1 = st \/ exists gs, storage w1 = setCachedData st gs now).
    { intros w0 Hs.
      destruct (loadGames_fetch m w0 now resp) as [[r' m'] w'] eqn:Hl.
      destruct r' as [c | e].
      - intros [= _ _ <-].
        destruct (loadGames_fetch_ok _ _ _ _ _ _ _ Hl) as (gs & _ & _ & _ & ->).
        right. exists gs. cbn. now rewrite Hs.
      - intros [= _ _ <-].
        destruct (loadGames_fetch_throw _ _ _ _ _ _ _ Hl) as [_ ->]. left. exact Hs. }
    destruct cached as [v |].
    + destruct (truthy v).
      * intros [= _ _ <-]. auto.
      * intros H.
        destruct (Hnet {| storage := st; fetches := fetches w |} eq_refl H)
          as [-> | [gs ->]]; eauto.
    + intros H.
      destruct (Hnet {| storage := st; fetches := fetches w |} eq_refl H)
        as [-> | [gs ->]]; eauto.
Qed.

(** X4.  [loadGames] and [refreshData] read and write the two texts of the
    cache and nothing else: every other key of the storage keeps its
    text. *)
Theorem loader_keeps_other_keys m w now resp k :
  other_key k ->
  items (storage (snd (loadGames m w now resp))) !! k = items (storage w) !! k /\
  items (storage (snd (refreshData m w now resp))) !! k = items (storage w) !! k.
Proof.
  intros Hk.
  assert (Hload : forall m w, items (storage (snd (loadGames m w now resp))) !! k =
                              items (storage w) !! k).
  { clear m w. intros m w.
    destruct (loadGames m w now resp) as [[r m1] w1] eqn:H. cbn [snd].
    destruct (loadGames_storage _ _ _ _ _ _ _ H) as [-> | [-> | [gs ->]]].
    - reflexivity.
    - now apply getCachedData_other.
    - rewrite setCachedData_other by exact Hk. now apply getCachedData_other. }
  split; [apply Hload |].
  unfold refreshData. rewrite Hload. cbn [storage]. now apply clearCache_other.
Qed.

End OtherKeys.

(** ** Failing loads, refreshes, loads from the cache *)

Section LoadOutcomes.

Context {host : Host}.

Lemma mapM_throw {A B} (f : A -> result B) (l : list A) (a : A) (e0 : exn) :
  In a l -> f a = Throw e0 ->
  exists e a', mapM f l = Throw e /\ In a' l /\ f a' = Throw e.
Proof.
  induction l as [| x l IH]; intros Hin Ha; [destruct Hin |].
  cbn [mapM]. destruct (f x) as [b |] eqn:Hx; cbn [bind].
  - destruct Hin as [-> | Hin]; [congruence |].
    destruct (IH Hin Ha) as (e & a' & -> & Ha' & He). cbn [bind].
    exists e, a'. split; [reflexivity |]. split; [now right | exact He].
  - exists e, x. split; [reflexivity |]. split; [now left | exact Hx].
Qed.

(** A call that finds nothing in the memo and nothing in the cache is the
    fetch, with its exception wrapped. *)
Lemma loadGames_miss (m : Manager) (w : World) (now : Z) (resp : response) :
  isLoaded m = false ->
  fst (getCachedData (storage w) now) = None ->
  loadGames m w now resp =
  (let '(r, m1, w1) :=
     loadGames_fetch m {| storage := snd (getCachedData (storage w) now);
                          fetches := fetches w |} now resp in
   match r with
   | Ok c => (Ok c, m1, w1)
   | Throw e => (Throw (GameDataError e), m1, w1)
   end).
Proof.
  intros Hl Hc. unfold loadGames. rewrite Hl. cbn [andb].
  destruct (getCachedData (storage w) now) as [cached st]. cbn [fst snd] in *.
  now rewrite Hc.
Qed.


(** X6.  One row that the constructor rejects fails the whole load: when
    neither the memo nor the cache answers and the fetched document has
    such a row, [loadGames] throws the rejection of a row, wrapped, keeps
    the manager as it was and writes nothing to the cache. *)
Theorem loadGames_rejects_document (m : Manager) (w : World) (now : Z)
    (rows : list value) (row : value) (e0 : exn) :
  isLoaded m = false ->
  fst (getCachedData (storage w) now) = None ->
  In row rows -> new_Game row = Throw e0 ->
  exists cause bad,
    In bad rows /\ new_Game bad = Throw cause /\
    loadGames m w now (document rows) =
    (Throw (GameDataError cause), m,
     {| storage := snd (getCachedData (storage w) now); fetches := S (fetches w) |}).
Proof.
  intros Hl Hc Hin Hrow.
  destruct (mapM_throw new_Game rows row e0 Hin Hrow) as (cause & bad & Hm & Hbad & Hcause).
  exists cause, bad. split; [exact Hbad |]. split; [exact Hcause |].
  rewrite (loadGames_miss m w now _ Hl Hc).
  unfold loadGames_fetch, document. cbn [bind truthy build_games assoc String.eqb].
  cbn. rewrite Hm. reflexivity.
Qed.

(** X7.  [refreshData] never answers from the memo or the cache: it makes
    one fetch, and when it returns, what it returns are the games built
    from the fetched document, which the manager then holds. *)
Theorem refreshData_fetches (m : Manager) (w : World) (now : Z) (resp : response)
    (r : result catalog) (m1 : Manager) (w1 : World) :
  refreshData m w now resp = (r, m1, w1) ->
  fetches w1 = S (fetches w) /\
  forall c, r = Ok c ->
    exists gs, built resp gs /\ c = Instances gs /\
               m1 = {| games := Instances gs; isLoaded := true |}.
Proof.
  unfold refreshData. rewrite loadGames_miss;
    [| reflexivity | cbn [storage]; now rewrite getCachedData_cleared].
  cbn [storage fetches]. rewrite getCachedData_cleared. cbn [snd].
  destruct (loadGames_fetch _ _ now resp) as [[r' m'] w'] eqn:Hl.
  destruct r' as [c' | e].
  - intros [= <- <- <-].
    destruct (loadGames_fetch_ok _ _ _ _ _ _ _ Hl) as (gs & Hb & -> & -> & ->).
    split; [reflexivity |]. intros c [= <-]. eauto.
  - intros [= <- <- <-].
    destruct (loadGames_fetch_throw _ _ _ _ _ _ _ Hl) as [_ ->].
    split; [reflexivity |]. discriminate.
Qed.

(** X8.  A manager that has nothing loaded answers from a cache record no
    older than the time to live, without a fetch and whatever the network
    would do: it returns the plain objects parsed from the record, an empty
    catalog included, and leaves the storage as it is. *)
Theorem loadGames_from_cache (m : Manager) (st : Storage) (n : nat)
    (gs : list Game) (written now : Z) (resp : response) :
  isLoaded m = false ->
  disabled st = false -> full st = false ->
  now - written <= cacheTTL ->
  let w := {| storage := setCachedData st gs written; fetches := n |} in
  let cached := Plain (VArr (List.map Game_toJSON gs)) in
  loadGames m w now resp = (Ok cached, {| games := cached; isLoaded := true |}, w).
Proof.
  intros Hl D F Hage w cached. unfold loadGames. rewrite Hl. cbn [andb].
  unfold w at 1. cbn [storage].
  destruct (setCachedData_writable st gs written D F) as (D' & Hd & Ht).
  rewrite (getCachedData_record _ now _ _ D' Hd Ht eq_refl eq_refl).
  cbn [text_parseInt expired text_JSON_parse].
  destruct (Z.ltb_spec cacheTTL (now - written)); [lia |].
  reflexivity.
Qed.

End LoadOutcomes.

(** ** Lookup by id *)

Section LookupFacts.

Context {host : Host}.

Lemma Array_find_total {A} (p : A -> bool) (l : list A) :
  match Array_find (fun x => Ok (p x)) l with
  | Ok (Some x) =>
      exists before after,
        l = (before ++ x :: after)%list /\ p x = true /\
        Forall (fun y => p y = false) before
  | Ok None => Forall (fun y => p y = false) l
  | Throw _ => False
  end.
Proof.
  induction l as [| a l IH]; cbn [Array_find bind]; [constructor |].
  destruct (p a) eqn:Ha.
  - exists [], l. auto.
  - destruct (Array_find (fun x => Ok (p x)) l) as [[x |] | e]; [| | exact IH].
    + destruct IH as (before & after & -> & Hx & Hb).
      exists (a :: before), after. auto.
    + now constructor.
Qed.

Lemma strict_eq_string_iff (v : value) (s : string) :
  strict_eq_string v s = true <-> v = VStr s.
Proof.
  destruct v; cbn; try (split; [discriminate | intros [=]]).
  rewrite String.eqb_eq. split; [now intros -> | now intros [= ->]].
Qed.

(** X9.  When [loadGames] returns [Game] instances, [getGameById] returns
    the first of them whose id is the string asked for, and [null] when no
    entry has it; an entry whose id is not a string is never found.  The
    manager and the world are left as [loadGames] leaves them, and when
    [loadGames] throws, [getGameById] throws the same. *)
Theorem getGameById_first (m : Manager) (w : World) (now : Z) (resp : response)
    (gameId : string) (m1 : Manager) (w1 : World) :
  (forall games, loadGames m w now resp = (Ok (Instances games), m1, w1) ->
     exists r, getGameById m w now resp gameId = (Ok r, m1, w1) /\
       match r with
       | Some (FoundGame g) =>
           exists before after,
             games = (before ++ g :: after)%list /\ Game.id g = VStr gameId /\
             Forall (fun x => Game.id x <> VStr gameId) before
       | Some (FoundPlain _) => False
       | None => Forall (fun x => Game.id x <> VStr gameId) games
       end) /\
  (forall e, loadGames m w now resp = (Throw e, m1, w1) ->
     getGameById m w now resp gameId = (Throw e, m1, w1)).
Proof.
  split.
  - intros games H. unfold getGameById. rewrite H. cbn [bind find_by_id].
    pose proof (Array_find_total (fun game => strict_eq_string (Game.id game) gameId) games)
      as Hf.
    destruct (Array_find _ games) as [[g |] | e]; cbn [bind option_map]; [| | destruct Hf].
    + eexists. split; [reflexivity |].
      destruct Hf as (before & after & -> & Hg & Hb).
      exists before, after. split; [reflexivity |].
      split; [now apply strict_eq_string_iff |].
      eapply Forall_impl; [exact Hb |]. intros x Hx E.
      apply strict_eq_string_iff in E. congruence.
    + eexists. split; [reflexivity |].
      eapply Forall_impl; [exact Hf |]. intros x Hx E.
      apply strict_eq_string_iff in E. congruence.
  - intros e H. unfold getGameById. rewrite H. reflexivity.
Qed.

End LookupFacts.

(** ** Filtering by genre *)

Section GenreFilter.

Context {host : Host}.





End GenreFilter.

(** ** The list of genres *)

Module StrOrder.

Lemma ascii_compare_spec (a b : ascii) :
  CompareSpec (a = b) (N_of_ascii a < N_of_ascii b)%N (N_of_ascii b < N_of_ascii a)%N
    (Ascii.compare a b).
Proof.
  unfold Ascii.compare.
  destruct (N.compare_spec (N_of_ascii a) (N_of_ascii b)) as [E | L | L];
    constructor; try assumption.
  rewrite <- (ascii_N_embedding a), <- (ascii_N_embedding b). now rewrite E.
Qed.

Lemma compare_refl (s : string) : String.compare s s = Eq.
Proof.
  induction s as [| c s IH]; [reflexivity |]. cbn.
  destruct (ascii_compare_spec c c) as [_ | L | L]; [exact IH | lia | lia].
Qed.

Lemma le_trans (a b c : string) : str_le a b -> str_le b c -> str_le a c.
Proof.
  unfold str_le. revert b c. induction a as [| x a IH]; intros [| y b] [| z c]; cbn;
    try congruence.
  destruct (ascii_compare_spec x y), (ascii_compare_spec y z), (ascii_compare_spec x z);
    subst; try congruence; try lia.
  apply IH.
Qed.

Lemma le_neq_lt (a b : string) : str_le a b -> a <> b -> str_lt a b.
Proof.
  unfold str_le, str_lt. intros H N. destruct (String.compare a b) eqn:E; [| reflexivity | congruence].
  apply String.compare_eq_iff in E. contradiction.
Qed.

Lemma gt_flip (a b : string) : String.compare a b = Gt -> String.compare b a <> Gt.
Proof.
  rewrite (String.compare_antisym b a). intros ->. discriminate.
Qed.

End StrOrder.

Section SortByOrder.

Context {A : Type} (after : A -> A -> bool).

Hypothesis after_asym : forall x y, after x y = true -> after y x = false.
Hypothesis before_trans : forall x y z, may_precede after x y -> may_precede after y z -> may_precede after x z.

Lemma insert_sorted_by (x : A) (l : list A) :
  StronglySorted (may_precede after) l -> StronglySorted (may_precede after) (insert after x l).
Proof.
  induction 1 as [| y ys Hs IH Hy]; cbn.
  - repeat constructor.
  - destruct (after x y) eqn:E.
    + constructor; [exact IH |].
      apply Forall_forall. intros z Hz.
      apply list_elem_of_In in Hz.
      apply (Permutation_in _ (Permutation_sym (insert_perm after x ys))) in Hz.
      destruct Hz as [<- | Hz].
      * now apply after_asym.
      * rewrite Forall_forall in Hy. apply Hy. now apply list_elem_of_In.
    + constructor; [now constructor |].
      constructor; [exact E |].
      eapply Forall_impl; [exact Hy |]. intros z Hz. now apply (before_trans x y z).
Qed.

Lemma isort_sorted_by (l : list A) : StronglySorted (may_precede after) (isort after l).
Proof.
  induction l as [| x xs IH]; cbn; [constructor | now apply insert_sorted_by].
Qed.

End SortByOrder.

Section GenreList.

Context {host : Host}.

Lemma strings_of_values (l : list value) :
  Forall is_str l -> exists ss, l = List.map VStr ss.
Proof.
  induction 1 as [| v l [s ->] _ [ss ->]]; [now exists [] | now exists (s :: ss)].
Qed.

Lemma existsb_same_value (s : string) (set : list string) :
  existsb (same_value_zero (VStr s)) (List.map VStr set) = existsb (String.eqb s) set.
Proof.
  induction set as [| x set IH]; cbn; [reflexivity | now rewrite IH].
Qed.

Lemma Set_add_names (ss set : list string) :
  fold_left Set_add (List.map VStr ss) (List.map VStr set) =
  List.map VStr (fold_left add_name ss set).
Proof.
  revert set. induction ss as [| s ss IH]; intros set; cbn [fold_left List.map];
    [reflexivity |].
  unfold Set_add at 2, add_name at 2. rewrite existsb_same_value.
  destruct (existsb (String.eqb s) set); [apply IH |].
  rewrite <- IH. now rewrite List.map_app.
Qed.

Lemma existsb_eqb_In (s : string) (set : list string) :
  existsb (String.eqb s) set = true <-> In s set.
Proof.
  rewrite existsb_exists. split.
  - intros (x & Hx & E). apply String.eqb_eq in E. now subst.
  - intros H. exists s. split; [exact H | apply String.eqb_refl].
Qed.

Lemma add_name_In (ss set : list string) (s : string) :
  In s (fold_left add_name ss set) <-> In s set \/ In s ss.
Proof.
  revert set. induction ss as [| x ss IH]; intros set; cbn [fold_left].
  - cbn. tauto.
  - rewrite IH. unfold add_name.
    destruct (existsb (String.eqb x) set) eqn:E.
    + apply existsb_eqb_In in E. cbn. split; [tauto |].
      intros [H | [<- | H]]; auto.
    + rewrite in_app_iff. cbn. tauto.
Qed.

Lemma add_name_NoDup (ss set : list string) :
  NoDup set -> NoDup (fold_left add_name ss set).
Proof.
  revert set. induction ss as [| x ss IH]; intros set Hn; cbn [fold_left]; [exact Hn |].
  apply IH. unfold add_name.
  destruct (existsb (String.eqb x) set) eqn:E; [exact Hn |].
  apply NoDup_app. split; [exact Hn |]. split; [| apply NoDup_singleton].
  intros y Hy Hy'. apply list_elem_of_In in Hy, Hy'. destruct Hy' as [<- | []].
  apply existsb_eqb_In in Hy. congruence.
Qed.

Lemma genres_nested (games : list Game) (set : list value) :
  fold_left (fun set game => fold_left Set_add (Game.genre game) set) games set =
  fold_left Set_add (List.concat (List.map Game.genre games)) set.
Proof.
  revert set. induction games as [| g games IH]; intros set; cbn; [reflexivity |].
  now rewrite IH, fold_left_app.
Qed.

Lemma filter_defined_names (ss : list string) :
  List.filter (fun v => negb match v with VUndefined => true | _ => false end)
    (List.map VStr ss) = List.map VStr ss /\
  List.filter (fun v => match v with VUndefined => true | _ => false end)
    (List.map VStr ss) = [].
Proof.
  induction ss as [| s ss [IH1 IH2]]; cbn; [auto |]. now rewrite IH1, IH2.
Qed.

Lemma sorted_strict (ss : list string) :
  StronglySorted str_le ss -> NoDup ss -> StronglySorted str_lt ss.
Proof.
  induction 1 as [| s ss Hs IH Hall]; intros Hn; [constructor |].
  apply NoDup_cons in Hn as [Hnot Hn].
  constructor; [now apply IH |].
  apply Forall_forall. intros x Hx. rewrite Forall_forall in Hall.
  apply StrOrder.le_neq_lt; [now apply Hall |].
  intros <-. apply Hnot. exact Hx.
Qed.

(** X11.  On a catalog whose genres are strings, [getGenres] returns each
    genre that occurs in some entry, once, in strictly increasing order of
    the strings. *)
Theorem getGenres_sorted_unique (games : list Game) :
  Forall (fun g => Forall is_str (Game.genre g)) games ->
  exists names,
    getGenres games = Ok (List.map VStr names) /\
    StronglySorted str_lt names /\
    forall s, In s names <-> exists g, In g games /\ In (VStr s) (Game.genre g).
Proof.
  intros Ht.
  destruct (strings_of_values (List.concat (List.map Game.genre games))) as [ss Hss].
  { apply Forall_concat, Forall_fmap. exact Ht. }
  set (set := fold_left add_name ss []).
  exists (isort name_after set).
  assert (Hget : getGenres games = Ok (List.map VStr (isort name_after set))).
  { unfold getGenres, Array_sort_default. rewrite genres_nested, Hss.
    change (@nil value) with (List.map VStr []). rewrite Set_add_names. fold set.
    destruct (filter_defined_names set) as [-> ->].
    rewrite (Array_sort_total _ default_compare) by reflexivity. cbn [bind].
    rewrite (isort_map VStr name_after).
    - now rewrite app_nil_r.
    - intros a b. unfold default_compare, name_after. cbn [ToString].
      now destruct (String.compare a b). }
  split; [exact Hget |]. split.
  - apply sorted_strict.
    + eapply StronglySorted_impl; [| apply (isort_sorted_by name_after)].
      * unfold str_le, name_after, may_precede. intros a b.
        now destruct (String.compare a b).
      * unfold name_after. intros x y H.
        destruct (String.compare x y) eqn:E; try discriminate.
        pose proof (StrOrder.gt_flip x y E). now destruct (String.compare y x).
      * intros x y z H1 H2.
        assert (L1 : str_le x y) by (unfold str_le, name_after, may_precede in *;
                                      now destruct (String.compare x y)).
        assert (L2 : str_le y z) by (unfold str_le, name_after, may_precede in *;
                                      now destruct (String.compare y z)).
        pose proof (StrOrder.le_trans x y z L1 L2) as L.
        unfold str_le, name_after, may_precede in *.
        now destruct (String.compare x z).
    + rewrite <- (isort_perm name_after set).
      apply add_name_NoDup. constructor.
  - intros s. split.
    + intros Hs. apply isort_In in Hs. apply add_name_In in Hs as [[] | Hs].
      assert (Hv : In (VStr s) (List.concat (List.map Game.genre games)))
        by (rewrite Hss; now apply in_map).
      apply in_concat in Hv as (l & Hl & Hv).
      apply in_map_iff in Hl as (g & <- & Hg). eauto.
    + intros (g & Hg & Hv).
      apply (Permutation_in _ (isort_perm name_after set)).
      apply add_name_In. right.
      assert (Hc : In (VStr s) (List.map VStr ss)).
      { rewrite <- Hss. apply in_concat. exists (Game.genre g). split; [| exact Hv].
        now apply in_map. }
      apply in_map_iff in Hc as (s' & [= ->] & Hs'). exact Hs'.
Qed.

End GenreList.

(** ** From rows to searchable entries *)

Section TypedRows.

Context {host : Host}.

Lemma or_else_string (v : value) (d : string) :
  absent_or_string v -> is_str (or_else v (VStr d)).
Proof.
  unfold or_else, is_str. intros [[-> | ->] | [s ->]]; cbn; eauto.
  destruct (Str.is_empty s); cbn; eauto.
Qed.

Lemma or_else_string2 (a b : value) (d : string) :
  absent_or_string a -> absent_or_string b -> is_str (or_else (or_else a b) (VStr d)).
Proof.
  intros Ha Hb. apply or_else_string. unfold or_else.
  destruct (truthy a); assumption.
Qed.

Lemma array_or_empty_strings (v : value) :
  strings_if_array v -> Forall is_str (array_or_empty v).
Proof.
  intros H. destruct v; cbn; try constructor. now apply H.
Qed.

Lemma new_Game_typed (data : value) (g : Game) :
  row_typed data -> new_Game data = Ok g -> text_typed g.
Proof.
  intros (Ht & Hd & Hf & Hv & Hg & Hs) H.
  destruct (new_Game_object _ _ H) as [props ->].
  unfold new_Game, prop, bind in H.
  destruct (negb (truthy (assoc "id" props)) || negb (truthy (assoc "title" props)))%bool;
    [discriminate |].
  injection H as <-. unfold text_typed. cbn [Game.title Game.description
    Game.fullDescription Game.developer Game.genre Game.tags].
  change (get (VObj props)) with (fun k => assoc k props) in *. cbn beta in *.
  repeat split.
  - exact Ht.
  - now apply or_else_string.
  - now apply or_else_string2.
  - now apply or_else_string.
  - now apply array_or_empty_strings.
  - now apply array_or_empty_strings.
Qed.

Lemma mapM_Forall {A B} (P : A -> Prop) (Q : B -> Prop) (f : A -> result B) l bs :
  (forall a b, P a -> f a = Ok b -> Q b) -> Forall P l -> mapM f l = Ok bs -> Forall Q bs.
Proof.
  intros H Hl. revert bs. induction Hl as [| a l Ha _ IH]; intros bs; cbn.
  - intros [= <-]. constructor.
  - destruct (f a) as [b |] eqn:Hb; cbn; [| discriminate].
    destruct (mapM f l) as [bs0 |]; cbn; [| discriminate].
    intros [= <-]. constructor; [now apply (H a) | now apply IH].
Qed.

(** [advancedSearch] returns on entries whose text fields are strings. *)
Lemma advancedSearch_total (games : list Game) (filters : Filters.t) :
  Forall text_typed games -> exists result, advancedSearch games filters = Ok result.
Proof.
  intros Ht. rewrite advancedSearch_stages.
  assert (exists g1, stage_text filters games = Ok g1) as [g1 H1].
  { unfold stage_text. destruct (set_string _) as [q |]; [| eauto].
    destruct (Str.is_empty (Str.trim q)); [eauto | now apply searchGames_total]. }
  rewrite H1. cbn [bind].
  assert (T1 : Forall text_typed g1)
    by (eapply Forall_incl; [exact Ht | now apply (stage_text_incl filters)]).
  assert (exists g2, stage_genre filters g1 = Ok g2 /\ forall x, In x g2 -> In x g1)
    as (g2 & H2 & I2).
  { unfold stage_genre. destruct (set_string _) as [q |]; [| eauto].
    destruct (Str.eqb q "all"); [eauto |].
    apply (Array_filter_total text_typed); [| exact T1].
    intros a Ha. now apply genre_matches_total. }
  rewrite H2. cbn [bind].
  assert (T3 : Forall text_typed (stage_rating filters g2)).
  { eapply Forall_incl; [exact T1 |].
    intros x Hx. apply I2. now apply (stage_rating_In filters). }
  unfold stage_sort. destruct (set_string _); [| eauto].
  rewrite sortGames_typed by exact T3. eauto.
Qed.

(** X12.  The entries built from rows whose text is typed as the data
    model has it can be searched: their text fields are strings, and
    [advancedSearch] returns on them for every choice of filters. *)
Theorem typed_rows_searchable (rows : list value) (games : list Game) :
  Forall row_typed rows -> mapM new_Game rows = Ok games ->
  Forall text_typed games /\
  forall filters, exists result, advancedSearch games filters = Ok result.
Proof.
  intros Hr Hm.
  assert (Ht : Forall text_typed games)
    by (eapply (mapM_Forall row_typed text_typed new_Game); eauto using new_Game_typed).
  split; [exact Ht |]. intros filters. now apply advancedSearch_total.
Qed.

(** X13.  The full description of a constructed entry is the one of the
    row when the row has one, and the short description of the entry
    otherwise. *)
Theorem fullDescription_default (data : value) (g : Game) :
  new_Game data = Ok g ->
  Game.fullDescription g =
  if truthy (get data "fullDescription") then get data "fullDescription"
  else Game.description g.
Proof.
  intros H. destruct (new_Game_object _ _ H) as [props ->].
  unfold new_Game, prop, bind in H.
  destruct (negb (truthy (assoc "id" props)) || negb (truthy (assoc "title" props)))%bool;
    [discriminate |].
  injection H as <-. cbn [Game.fullDescription Game.description].
  change (get (VObj props)) with (fun k => assoc k props). cbn beta.
  unfold or_else.
  destruct (truthy (assoc "fullDescription" props)) eqn:F; [now rewrite F |].
  reflexivity.
Qed.



End TypedRows.

(** ** Which entries a text search returns *)

Section SearchMatches.

Implicit Types (term : string) (words : list string).








End SearchMatches.

Section SearchResults.






Lemma lower_char_ws (c : ascii) : Str.is_ws (Str.lower_char c) = Str.is_ws c.
Proof. destruct c as [[] [] [] [] [] [] [] []]; reflexivity. Qed.

Lemma all_ws_lower (s : string) : all_ws (Str.toLowerCase s) = all_ws s.
Proof.
  induction s as [| c s IH]; cbn [Str.toLowerCase all_ws]; [reflexivity |].
  now rewrite lower_char_ws, IH.
Qed.

(** X16.  The result of a text search depends on the query through its
    trimmed, lower-cased form only: two queries with the same such form,
    which is the case when they differ in case or in the white space
    around them, give the same result on any catalog. *)
Theorem searchGames_query_normal (games : list Game) (q q' : string) :
  Str.trim (Str.toLowerCase q) = Str.trim (Str.toLowerCase q') ->
  searchGames games q = searchGames games q'.
Proof.
  intros H. unfold searchGames. rewrite !blank_query.
  rewrite <- (all_ws_lower q), <- (all_ws_lower q'), <- !trim_empty, H.
  destruct (Str.is_empty (Str.trim (Str.toLowerCase q'))); reflexivity.
Qed.

End SearchResults.

(** ** Sorting: criteria and orders *)

Section SortCriteria.

Context {host : Host}.

Lemma Array_sort_ext {A} (cmp cmp' : A -> A -> result number) (l : list A) :
  (forall a b, cmp a b = cmp' a b) -> Array_sort cmp l = Array_sort cmp' l.
Proof.
  intros H. induction l as [| x xs IH]; cbn; [reflexivity |].
  rewrite IH. destruct (Array_sort cmp' xs) as [s |]; cbn [bind]; [| reflexivity].
  clear IH. induction s as [| y ys IHs]; cbn [sort_insert]; [reflexivity |].
  rewrite H. destruct (cmp' x y) as [c |]; cbn [bind]; [| reflexivity].
  destruct (Num.pos c); [now rewrite IHs | reflexivity].
Qed.

Lemma isort_never {A} (after : A -> A -> bool) (l : list A) :
  (forall a b, after a b = false) -> isort after l = l.
Proof.
  intros H. induction l as [| x xs IH]; cbn; [reflexivity |].
  rewrite IH. destruct xs; cbn; [reflexivity | now rewrite H].
Qed.

(** X17.  A sort criterion that [sortGames] does not know leaves the list
    in the order it has, and every order other than "asc" sorts as "desc"
    does. *)
Theorem sortGames_defaults (games : list Game) (sortBy order : string) :
  (sortBy <> "rating" -> sortBy <> "title" -> sortBy <> "releaseDate" ->
   sortBy <> "reviewCount" -> sortGames games sortBy order = Ok games) /\
  (order <> "asc" -> sortGames games sortBy order = sortGames games sortBy "desc").
Proof.
  split.
  - intros H1 H2 H3 H4. unfold sortGames.
    rewrite (Array_sort_total _ (fun _ _ => Num.of_Z 0)).
    + now rewrite isort_never.
    + intros a b. unfold sort_comparator, Str.eqb.
      rewrite (proj2 (String.eqb_neq _ _) H1), (proj2 (String.eqb_neq _ _) H2),
        (proj2 (String.eqb_neq _ _) H3), (proj2 (String.eqb_neq _ _) H4).
      reflexivity.
  - intros Ho. unfold sortGames. apply Array_sort_ext. intros a b.
    unfold sort_comparator, Str.eqb.
    rewrite (proj2 (String.eqb_neq order "asc") Ho).
    change ("desc" =? "asc")%string with false. reflexivity.
Qed.

Lemma reviewCount_comparison (order : string) (a b : Game) :
  sort_comparator "reviewCount" order a b =
  Ok (let c := Num.of_Z (Game.reviewCount a - Game.reviewCount b) in
      if Str.eqb order "asc" then c else Num.neg c).
Proof. reflexivity. Qed.

Lemma pos_neg_of_Z (z : Z) : Num.pos (Num.neg (Num.of_Z z)) = (z <? 0).
Proof.
  unfold Num.pos, Num.neg, Num.of_Z, Qle_bool, inject_Z, Qopp. cbn [Qnum Qden].
  rewrite Z.mul_1_r. cbn [Z.mul].
  destruct (Z.leb_spec (- z) 0), (Z.ltb_spec z 0); cbn; lia || reflexivity.
Qed.

(** X18.  The sort by review count never throws.  It returns the entries
    in non-decreasing order of the count for the order "asc" and in
    non-increasing order for any other, and the entries of one count keep
    the order they had. *)
Theorem sortGames_reviewCount (games : list Game) (order : string) :
  exists sorted,
    sortGames games "reviewCount" order = Ok sorted /\
    Permutation games sorted /\
    StronglySorted
      (fun a b => if Str.eqb order "asc" then Game.reviewCount a <= Game.reviewCount b
                  else Game.reviewCount b <= Game.reviewCount a) sorted /\
    forall n, List.filter (fun g => Game.reviewCount g =? n) sorted =
              List.filter (fun g => Game.reviewCount g =? n) games.
Proof.
  set (key := fun g => if Str.eqb order "asc" then Game.reviewCount g
                       else - Game.reviewCount g).
  exists (isort (key_after key) games).
  split; [| split; [apply isort_perm | split]].
  - unfold sortGames.
    rewrite (Array_sort_total _ (comparison "reviewCount" order))
      by (intros a b; unfold comparison; now rewrite reviewCount_comparison).
    f_equal. apply isort_ext_on. intros a b _ _.
    unfold comparison. rewrite reviewCount_comparison. cbv zeta.
    unfold key_after, key. destruct (Str.eqb order "asc").
    + rewrite pos_of_Z.
      destruct (Z.ltb_spec 0 (Game.reviewCount a - Game.reviewCount b)),
        (Z.ltb_spec (Game.reviewCount b) (Game.reviewCount a)); lia || reflexivity.
    + rewrite pos_neg_of_Z.
      destruct (Z.ltb_spec (Game.reviewCount a - Game.reviewCount b) 0),
        (Z.ltb_spec (- Game.reviewCount b) (- Game.reviewCount a)); lia || reflexivity.
  - eapply StronglySorted_impl; [| apply (isort_sorted key)].
    unfold key_le, key. intros a b. destruct (Str.eqb order "asc"); lia.
  - intros n.
    rewrite (filter_ext_key _ (fun g => key g =? (if Str.eqb order "asc" then n else - n))).
    + rewrite isort_stable. apply filter_ext_key. intros g. unfold key.
      destruct (Str.eqb order "asc"); [reflexivity |].
      destruct (Z.eqb_spec (- Game.reviewCount g) (- n)),
        (Z.eqb_spec (Game.reviewCount g) n); lia || reflexivity.
    + intros g. unfold key. destruct (Str.eqb order "asc"); [reflexivity |].
      destruct (Z.eqb_spec (- Game.reviewCount g) (- n)),
        (Z.eqb_spec (Game.reviewCount g) n); lia || reflexivity.
Qed.

End SortCriteria.

(** ** Cancelling the debouncer *)

Section CancelFacts.

Context {A : Type}.

Import Debouncer.

Lemma session_single_slot (events : list (Z * A)) (d : Debouncer.t) (l : Loop A) :
  single_slot d l ->
  single_slot (fst (session d l events)) (snd (session d l events)) /\
  delay (fst (session d l events)) = delay d.
Proof.
  revert d l. induction events as [| [now args] rest IH]; intros d l Hs.
  - cbn. auto.
  - cbn [session].
    pose proof (execute_single_slot d l now args Hs) as He.
    destruct (execute d (run_until l now) now args) as [d' l'].
    destruct He as (Hd & _ & Hp & Hi).
    destruct (IH d' l') as [H1 H2]; [right; eauto |].
    split; [exact H1 | congruence].
Qed.

Lemma cancel_clears (d : Debouncer.t) (l : Loop A) :
  single_slot d l -> pending (cancel d l) = [] /\ calls (cancel d l) = calls l.
Proof.
  unfold cancel, clearTimeout.
  intros [Hp | (i & due & args & Hi & Hp)].
  - destruct (timeoutId d); cbn; rewrite ?Hp; auto.
  - rewrite Hi. cbn. rewrite Hp. cbn. now rewrite Nat.eqb_refl.
Qed.

Lemma run_until_single_slot (d : Debouncer.t) (l : Loop A) (now : Z) :
  single_slot d l -> single_slot d (run_until l now).
Proof.
  intros [Hp | (i & due & args & Hi & Hp)]; unfold single_slot, run_until; cbn.
  - left. now rewrite Hp.
  - rewrite Hp. cbn. destruct (due <=? now); cbn; [now left |].
    right. eauto.
Qed.

(** X19.  [cancel] drops the call that is pending: when a session of
    [execute] calls is cancelled at some time, the wrapped function has run
    for the calls that had settled by then and never runs for the last one
    afterwards, however long the loop goes on.  A second [cancel] changes
    nothing. *)
Theorem cancel_drops_pending (delay : Z) (events : list (Z * A)) (at_time stop : Z) :
  let '(d, l) := session (new delay) idle events in
  let cancelled := cancel d (run_until l at_time) in
  calls (run_until cancelled stop) = settled delay events at_time /\
  cancel d cancelled = cancelled.
Proof.
  pose proof (session_single_slot events (new delay) idle (or_introl eq_refl)) as [Hs _].
  pose proof (fired_settled delay events at_time) as Hf. unfold fired in Hf.
  destruct (session (new delay) idle events) as [d l]. cbn [fst snd] in Hs.
  pose proof (run_until_single_slot d l at_time Hs) as Hs'.
  destruct (cancel_clears d (run_until l at_time) Hs') as [Hp Hc].
  split.
  - unfold run_until at 1. cbn [calls]. rewrite Hp, Hc, Hf. cbn. now rewrite app_nil_r.
  - unfold cancel at 1, clearTimeout.
    destruct (timeoutId d); [| reflexivity].
    rewrite Hp. cbn. rewrite <- Hp.
    now destruct (cancel d (run_until l at_time)).
Qed.

End CancelFacts.

(** ** The game list view *)

Lemma ceil_div_spec (n d : Z) :
  0 < d -> d * (GameListView.ceil_div n d - 1) < n <= d * GameListView.ceil_div n d.
Proof.
  intros Hd. unfold GameListView.ceil_div.
  pose proof (Z.div_mod (- n) d ltac:(lia)) as E.
  pose proof (Z.mod_pos_bound (- n) d Hd) as B.
  set (q := - n / d) in *. set (r := (- n) mod d) in *.
  replace (d * (- q - 1)) with (- (d * q) - d) by ring.
  replace (d * - q) with (- (d * q)) by ring.
  lia.
Qed.

Lemma slice_take_drop {A : Type} (l : list A) (a n : Z) :
  0 <= a -> 0 <= n ->
  GameListView.slice l a (a + n) = take (Z.to_nat n) (drop (Z.to_nat a) l).
Proof.
  intros Ha Hn. unfold GameListView.slice.
  replace (a <? 0) with false by (symmetry; apply Z.ltb_ge; lia).
  replace (a + n <? 0) with false by (symmetry; apply Z.ltb_ge; lia).
  destruct (Z_le_gt_dec a (Z.of_nat (length l))) as [Hle | Hgt].
  - rewrite (Z.min_l a) by lia.
    destruct (Z_le_gt_dec (a + n) (Z.of_nat (length l))) as [Hle' | Hgt'].
    + rewrite Z.min_l by lia. f_equal. lia.
    + rewrite Z.min_r by lia.
      rewrite !firstn_all2; try reflexivity.
      * rewrite length_skipn. lia.
      * rewrite length_skipn. lia.
  - rewrite (Z.min_r a) by lia. rewrite Z.min_r by lia.
    rewrite !skipn_all2 by lia. now rewrite !firstn_nil.
Qed.

Lemma page_of_take_drop (v : GameListView.t) (p : Z) :
  1 <= p ->
  page_of v p =
  take 20 (drop (Z.to_nat ((p - 1) * 20)) (GameListView.filteredGames v)).
Proof.
  intros Hp. unfold page_of, GameListView.gamesToShow, GameListView.set_page.
  cbn [GameListView.currentPage GameListView.filteredGames].
  unfold GameListView.gamesPerPage.
  rewrite slice_take_drop by lia. reflexivity.
Qed.

Lemma page_of_nonempty (v : GameListView.t) (p : Z) :
  1 <= p <= GameListView.totalPages v -> page_of v p <> [].
Proof.
  intros Hp. rewrite page_of_take_drop by lia.
  unfold GameListView.totalPages, GameListView.gamesPerPage in Hp.
  pose proof (ceil_div_spec (Z.of_nat (length (GameListView.filteredGames v))) 20
                ltac:(lia)) as B.
  intros E. apply (f_equal (@length Game)) in E.
  rewrite length_take, length_drop in E. cbn [length] in E. lia.
Qed.

Lemma page_of_current (v : GameListView.t) :
  page_of v (GameListView.currentPage v) = GameListView.gamesToShow v.
Proof. reflexivity. Qed.

Lemma renderGameGrid_loading (v : GameListView.t) :
  GameListView.isLoading v = true -> GameListView.renderGameGrid v = v.
Proof. intros H. unfold GameListView.renderGameGrid. now rewrite H. Qed.

Lemma renderGameGrid_keeps (v : GameListView.t) :
  GameListView.currentPage (GameListView.renderGameGrid v) = GameListView.currentPage v /\
  GameListView.filteredGames (GameListView.renderGameGrid v) =
  GameListView.filteredGames v.
Proof.
  unfold GameListView.renderGameGrid.
  destruct (GameListView.isLoading v); [easy |].
  destruct (GameListView.gamesToShow v); easy.
Qed.

Lemma goToPage_loading (v : GameListView.t) (page : Z) :
  GameListView.isLoading v = true ->
  GameListView.isLoading (GameListView.goToPage v page) = true /\
  GameListView.container (GameListView.goToPage v page) = GameListView.container v.
Proof.
  intros H. unfold GameListView.goToPage.
  destruct (_ || _)%bool; [easy |].
  rewrite renderGameGrid_loading by exact H. easy.
Qed.

Lemma goToPage_new (page : Z) :
  GameListView.goToPage GameListView.new page = GameListView.new.
Proof.
  unfold GameListView.goToPage.
  change (GameListView.totalPages GameListView.new) with 0.
  destruct (Z.ltb_spec page 1); [reflexivity |].
  destruct (Z.ltb_spec 0 page); [reflexivity | lia].
Qed.

Section ViewRuns.

Context {host : Host}.

Lemma handle_settled (requested : bool) (v : GameListView.t) (e : view_event) :
  settled_on requested v -> failed e = false ->
  settled_on (requested || is_request e) (handle v e).
Proof.
  intros Hv He. destruct e as [loaded | loaded q g more | page]; cbn [is_request handle].
  - rewrite Bool.orb_true_r. destruct loaded as [games | err]; [| discriminate He].
    cbn. split; reflexivity.
  - rewrite Bool.orb_true_r. unfold failed in He.
    unfold GameListView.filterGames.
    destruct (let* games := loaded in
              advancedSearch games (GameListView.filters_of q g more));
      [| discriminate He].
    cbn. split; reflexivity.
  - rewrite Bool.orb_false_r. destruct requested; cbn in Hv |- *.
    + destruct Hv as [Hl Hc].
      destruct (goToPage_loading v page Hl) as [Hl' Hc'].
      split; [exact Hl' | now rewrite Hc'].
    + subst v. apply goToPage_new.
Qed.

Lemma run_settled (events : list view_event) (requested : bool) (v : GameListView.t) :
  settled_on requested v -> Forall (fun e => failed e = false) events ->
  settled_on (requested || existsb is_request events) (fold_left handle events v).
Proof.
  revert requested v.
  induction events as [| e events IH]; intros requested v Hv Hall.
  - cbn. now rewrite Bool.orb_false_r.
  - apply Forall_cons in Hall as [He Hall]. cbn [fold_left existsb].
    rewrite Bool.orb_assoc. apply IH; [| exact Hall].
    now apply handle_settled.
Qed.

Lemma page_valid_render (v : GameListView.t) :
  page_valid v -> page_valid (GameListView.renderGameGrid v).
Proof.
  unfold page_valid, GameListView.totalPages.
  destruct (renderGameGrid_keeps v) as [-> ->]. easy.
Qed.

Lemma handle_page_valid (v : GameListView.t) (e : view_event) :
  page_valid v -> page_valid (handle v e).
Proof.
  intros Hv. destruct e as [loaded | loaded q g more | page]; cbn [handle].
  - unfold GameListView.loadAndRenderGames. destruct loaded as [games | err].
    + apply page_valid_render. now left.
    + exact Hv.
  - unfold GameListView.filterGames.
    destruct (let* games := loaded in
              advancedSearch games (GameListView.filters_of q g more)).
    + apply page_valid_render. now left.
    + exact Hv.
  - unfold GameListView.goToPage.
    destruct (Z.ltb_spec page 1); [exact Hv |].
    destruct (Z.ltb_spec (GameListView.totalPages v) page); [exact Hv |].
    destruct (Z.eqb_spec page (GameListView.currentPage v)); [exact Hv |].
    cbn [orb]. apply page_valid_render. right. cbn. split; assumption.
Qed.

Lemma run_page_valid (events : list view_event) (v : GameListView.t) :
  page_valid v -> page_valid (fold_left handle events v).
Proof.
  revert v. induction events as [| e events IH]; intros v Hv; [exact Hv |].
  cbn [fold_left]. apply IH. now apply handle_page_valid.
Qed.

(** X20. As long as no request of the view has failed, the container never
    shows the games: [renderGameGrid] returns at once while the loading
    flag is set, and only the error and the empty state clear the flag.
    After the first load or filter the container holds the loading
    indicator, whatever pages are asked for; before it, nothing. *)
Theorem loading_indicator_stays (events : list view_event) :
  Forall (fun e => failed e = false) events ->
  GameListView.container (view_after events) =
  if existsb is_request events then GameListView.Loading else GameListView.Blank.
Proof.
  intros Hall.
  pose proof (run_settled events false GameListView.new eq_refl Hall) as H.
  unfold view_after. cbn [orb] in H.
  destruct (existsb is_request events); cbn in H.
  - apply H.
  - now rewrite H.
Qed.

(** X21. Whatever has happened to a view, its current page is at least 1,
    and when the filtered list is not empty the current page is one of its
    pages and holds at least one game: a list with games is never drawn as
    an empty page. *)
Theorem current_page_has_games (events : list view_event) :
  let v := view_after events in
  1 <= GameListView.currentPage v /\
  (GameListView.filteredGames v <> [] ->
   GameListView.currentPage v <= GameListView.totalPages v /\
   GameListView.gamesToShow v <> []).
Proof.
  intros v.
  assert (Hv : page_valid v).
  { apply run_page_valid. now left. }
  assert (Htotal : GameListView.filteredGames v <> [] -> 1 <= GameListView.totalPages v).
  { intros Hne. unfold GameListView.totalPages, GameListView.gamesPerPage.
    generalize (ceil_div_spec (Z.of_nat (length (GameListView.filteredGames v))) 20
                  ltac:(lia)).
    destruct (GameListView.filteredGames v) as [| game rest]; [congruence |].
    cbn [length]. lia. }
  split.
  - destruct Hv as [-> | Hv]; lia.
  - intros Hne. specialize (Htotal Hne).
    assert (Hin : 1 <= GameListView.currentPage v <= GameListView.totalPages v).
    { destruct Hv as [E | Hv]; [rewrite E; lia | exact Hv]. }
    split; [lia |].
    rewrite <- page_of_current. now apply page_of_nonempty.
Qed.

End ViewRuns.

Lemma chunks_take {A : Type} (n k : nat) (l : list A) :
  concat (List.map (fun i => take n (drop (i * n) l)) (seq 0 k)) = take (k * n) l.
Proof.
  induction k as [| k IH]; [reflexivity |].
  rewrite seq_S, List.map_app, concat_app, IH. cbn [List.map concat Nat.add].
  rewrite app_nil_r, take_take_drop. f_equal. lia.
Qed.

Lemma pages_from_to_cons (first last : Z) :
  first <= last ->
  GameListView.pages_from_to first last =
  first :: GameListView.pages_from_to (first + 1) last.
Proof.
  intros H. unfold GameListView.pages_from_to.
  replace (Z.to_nat (last - first + 1)) with (S (Z.to_nat (last - (first + 1) + 1)))
    by lia.
  cbn [seq List.map]. f_equal; [lia |].
  rewrite <- seq_shift, List.map_map. apply List.map_ext. intros i. lia.
Qed.

Lemma pages_from_to_nil (first last : Z) :
  last < first -> GameListView.pages_from_to first last = [].
Proof.
  intros H. unfold GameListView.pages_from_to.
  now replace (Z.to_nat (last - first + 1)) with O by lia.
Qed.

Lemma In_pages_from_to (first last p : Z) :
  In p (GameListView.pages_from_to first last) <-> first <= p <= last.
Proof.
  unfold GameListView.pages_from_to. rewrite in_map_iff. split.
  - intros (i & <- & Hi). apply in_seq in Hi. lia.
  - intros H. exists (Z.to_nat (p - first)). split; [lia |]. apply in_seq. lia.
Qed.

(** X22. The pages of a view cut the filtered list into consecutive
    pieces: pages 1 to [totalPages] joined give back the list, each of them
    holds between 1 and 20 games, and a page past the last one is empty. *)
Theorem pages_partition (v : GameListView.t) :
  concat (List.map (page_of v) (GameListView.pages_from_to 1 (GameListView.totalPages v))) =
  GameListView.filteredGames v /\
  (forall p, 1 <= p <= GameListView.totalPages v ->
     page_of v p <> [] /\ (length (page_of v p) <= 20)%nat) /\
  (forall p, GameListView.totalPages v < p -> page_of v p = []).
Proof.
  pose proof (ceil_div_spec (Z.of_nat (length (GameListView.filteredGames v))) 20
                ltac:(lia)) as B.
  change (GameListView.ceil_div _ 20) with (GameListView.totalPages v) in B.
  assert (Htotal : 0 <= GameListView.totalPages v) by lia.
  split; [| split].
  - unfold GameListView.pages_from_to. rewrite List.map_map.
    replace (Z.to_nat (GameListView.totalPages v - 1 + 1))
      with (Z.to_nat (GameListView.totalPages v)) by lia.
    rewrite (List.map_ext _ (fun i => take 20 (drop (i * 20) (GameListView.filteredGames v)))).
    + rewrite chunks_take. apply take_ge. lia.
    + intros i. rewrite page_of_take_drop by lia. do 2 f_equal. lia.
  - intros p Hp. split; [now apply page_of_nonempty |].
    rewrite page_of_take_drop by lia. rewrite length_take. lia.
  - intros p Hp. rewrite page_of_take_drop by lia.
    rewrite drop_ge; [reflexivity | lia].
Qed.

Lemma numbers_app (a b : list GameListView.page_item) :
  numbers (a ++ b) = (numbers a ++ numbers b)%list.
Proof. apply flat_map_app. Qed.

Lemma active_pages_app (a b : list GameListView.page_item) :
  active_pages (a ++ b) = (active_pages a ++ active_pages b)%list.
Proof. apply flat_map_app. Qed.

Lemma numbers_window (cur : Z) (pages : list Z) :
  numbers (List.map (fun page => GameListView.Number page (page =? cur)) pages) = pages.
Proof.
  induction pages as [| p pages IH]; [reflexivity |].
  cbn [List.map]. change (numbers (?x :: ?l)) with (numbers [x] ++ numbers l)%list.
  now rewrite IH.
Qed.

Lemma active_window (cur first last : Z) :
  active_pages
    (List.map (fun page => GameListView.Number page (page =? cur))
       (GameListView.pages_from_to first last)) =
  if ((first <=? cur) && (cur <=? last))%bool then [cur] else [].
Proof.
  remember (Z.to_nat (last - first + 1)) as n eqn:En.
  revert first En. induction n as [| n IH]; intros first En.
  - rewrite pages_from_to_nil by lia.
    destruct (Z.leb_spec first cur), (Z.leb_spec cur last); try reflexivity. lia.
  - rewrite pages_from_to_cons by lia. cbn [List.map].
    match goal with
    | |- context [active_pages (?x :: ?l)] =>
        change (x :: l) with ([x] ++ l)%list
    end.
    rewrite active_pages_app, IH by lia.
    destruct (Z.eqb_spec first cur) as [-> | Hne].
    + cbn. destruct (Z.leb_spec (cur + 1) cur); [lia |].
      destruct (Z.leb_spec cur cur); [| lia].
      destruct (Z.leb_spec cur last); [reflexivity | lia].
    + cbn. destruct (Z.leb_spec (first + 1) cur), (Z.leb_spec first cur);
        try reflexivity; lia.
Qed.

(** X23. The pagination bar of a view with at least two pages, drawn for a
    current page within them: it lists page 1, a window of consecutive
    pages and the last page, in increasing order and each once; the window
    has five pages (all of them when there are fewer), contains the current
    page and every page within two of it; only the current page is marked
    active; the previous and next controls are there exactly when such a
    page exists, and lead to it. *)
Theorem pagination_bar (v : GameListView.t) :
  let total := GameListView.totalPages v in
  let cur := GameListView.currentPage v in
  let items := GameListView.renderPagination v in
  2 <= total -> 1 <= cur <= total ->
  exists first last,
    1 <= first <= cur /\ cur <= last <= total /\
    last - first + 1 = Z.min 5 total /\
    (first = 1 \/ first <= cur - 2) /\
    (last = total \/ cur + 2 <= last) /\
    numbers items =
      ((if 1 <? first then [1] else []) ++
       GameListView.pages_from_to first last ++
       (if last <? total then [total] else []))%list /\
    active_pages items = [cur] /\
    (forall p, In (GameListView.Previous p) items <-> 1 < cur /\ p = cur - 1) /\
    (forall p, In (GameListView.Next p) items <-> cur < total /\ p = cur + 1).
Proof.
  intros total cur items Htotal Hcur. subst items.
  unfold GameListView.renderPagination. fold total. fold cur.
  destruct (Z.leb_spec total 1) as [? | _]; [lia |].
  change (5 / 2) with 2.
  set (start0 := Z.max 1 (cur - 2)).
  set (last := Z.min total (start0 + 5 - 1)).
  set (first := if last - start0 <? 5 - 1 then Z.max 1 (last - 5 + 1) else start0).
  assert (Hwin : 1 <= first <= cur /\ cur <= last <= total /\
                 last - first + 1 = Z.min 5 total /\
                 (first = 1 \/ first <= cur - 2) /\
                 (last = total \/ cur + 2 <= last)).
  { subst first last start0. destruct (Z.ltb_spec (Z.min total (Z.max 1 (cur - 2) + 5 - 1) - Z.max 1 (cur - 2)) (5 - 1)); lia. }
  exists first, last.
  destruct Hwin as (Hf & Hl & Hsize & Hnear & Hfar).
  repeat split; try lia.
  - rewrite !numbers_app, numbers_window.
    destruct (Z.ltb_spec 1 cur), (Z.ltb_spec 1 first), (Z.ltb_spec 2 first),
      (Z.ltb_spec last total), (Z.ltb_spec last (total - 1)),
      (Z.ltb_spec cur total); try lia; reflexivity.
  - rewrite !active_pages_app, active_window.
    destruct (Z.leb_spec first cur); [| lia].
    destruct (Z.leb_spec cur last); [| lia].
    destruct (Z.ltb_spec 1 cur), (Z.ltb_spec 1 first), (Z.ltb_spec 2 first),
      (Z.ltb_spec last total), (Z.ltb_spec last (total - 1)),
      (Z.ltb_spec cur total); try lia; reflexivity.
  - rewrite !in_app_iff, in_map_iff in H.
    destruct H as [H | [H | [H | [H | H]]]].
    + destruct (Z.ltb_spec 1 cur); [assumption | destruct H].
    + destruct (1 <? first); [| destruct H].
      destruct H as [H | H]; [discriminate H |].
      destruct (2 <? first); [| destruct H].
      destruct H as [H | []]; discriminate H.
    + destruct H as (x & H & _). discriminate H.
    + destruct (last <? total); [| destruct H].
      apply in_app_iff in H. destruct H as [H | [H | []]]; [| discriminate H].
      destruct (last <? total - 1); [| destruct H].
      destruct H as [H | []]; discriminate H.
    + destruct (cur <? total); [| destruct H].
      destruct H as [H | []]; discriminate H.
  - rewrite !in_app_iff, in_map_iff in H.
    destruct H as [H | [H | [H | [H | H]]]].
    + destruct (1 <? cur); [| destruct H].
      destruct H as [H | []]. now injection H as <-.
    + destruct (1 <? first); [| destruct H].
      destruct H as [H | H]; [discriminate H |].
      destruct (2 <? first); [| destruct H].
      destruct H as [H | []]; discriminate H.
    + destruct H as (x & H & _). discriminate H.
    + destruct (last <? total); [| destruct H].
      apply in_app_iff in H. destruct H as [H | [H | []]]; [| discriminate H].
      destruct (last <? total - 1); [| destruct H].
      destruct H as [H | []]; discriminate H.
    + destruct (cur <? total); [| destruct H].
      destruct H as [H | []]; discriminate H.
  - intros [H ->]. apply in_app_iff. left.
    destruct (Z.ltb_spec 1 cur); [now left | lia].
  - rewrite !in_app_iff, in_map_iff in H.
    destruct H as [H | [H | [H | [H | H]]]].
    + destruct (1 <? cur); [| destruct H].
      destruct H as [H | []]; discriminate H.
    + destruct (1 <? first); [| destruct H].
      destruct H as [H | H]; [discriminate H |].
      destruct (2 <? first); [| destruct H].
      destruct H as [H | []]; discriminate H.
    + destruct H as (x & H & _). discriminate H.
    + destruct (last <? total); [| destruct H].
      apply in_app_iff in H. destruct H as [H | [H | []]]; [| discriminate H].
      destruct (last <? total - 1); [| destruct H].
      destruct H as [H | []]; discriminate H.
    + destruct (Z.ltb_spec cur total); [assumption | destruct H].
  - rewrite !in_app_iff, in_map_iff in H.
    destruct H as [H | [H | [H | [H | H]]]].
    + destruct (1 <? cur); [| destruct H].
      destruct H as [H | []]; discriminate H.
    + destruct (1 <? first); [| destruct H].
      destruct H as [H | H]; [discriminate H |].
      destruct (2 <? first); [| destruct H].
      destruct H as [H | []]; discriminate H.
    + destruct H as (x & H & _). discriminate H.
    + destruct (last <? total); [| destruct H].
      apply in_app_iff in H. destruct H as [H | [H | []]]; [| discriminate H].
      destruct (last <? total - 1); [| destruct H].
      destruct H as [H | []]; discriminate H.
    + destruct (cur <? total); [| destruct H].
      destruct H as [H | []]. now injection H as <-.
  - intros [H ->]. rewrite !in_app_iff. do 4 right.
    destruct (Z.ltb_spec cur total); [now left | lia].
Qed.

Lemma cards_of_insert_ads (i len : Z) (games : list Game) :
  cards_of (GameListView.insert_ads i len games) = games.
Proof.
  revert i. induction games as [| game rest IH]; intros i; [reflexivity |].
  cbn [GameListView.insert_ads].
  change (cards_of (GameListView.Card game :: ?l)) with (game :: cards_of l).
  f_equal. unfold cards_of. rewrite flat_map_app. fold cards_of. rewrite IH.
  now destruct (_ && _)%bool.
Qed.

Lemma ads_of_app (a b : list GameListView.grid_item) :
  ads_of (a ++ b) = (ads_of a ++ ads_of b)%list.
Proof. apply flat_map_app. Qed.

Lemma ads_of_insert_ads (games : list Game) (i len : Z) :
  0 <= i -> i + Z.of_nat (length games) = len ->
  ads_of (GameListView.insert_ads i len games) =
  GameListView.pages_from_to (i / 8 + 1) ((len - 1) / 8).
Proof.
  revert i. induction games as [| game rest IH]; intros i Hi Hlen.
  - cbn [length] in Hlen. cbn. rewrite pages_from_to_nil; [reflexivity |].
    subst len. pose proof (Z.div_le_mono (i + 0 - 1) i 8 ltac:(lia) ltac:(lia)). lia.
  - cbn [length] in Hlen. cbn [GameListView.insert_ads].
    change (ads_of (GameListView.Card game :: ?l)) with (ads_of l).
    rewrite ads_of_app, (IH (i + 1)) by lia.
    pose proof (Z.div_mod (i + 1) 8 ltac:(lia)) as E1.
    pose proof (Z.mod_pos_bound (i + 1) 8 ltac:(lia)) as B1.
    pose proof (Z.div_mod i 8 ltac:(lia)) as E0.
    pose proof (Z.mod_pos_bound i 8 ltac:(lia)) as B0.
    pose proof (Z.div_mod (len - 1) 8 ltac:(lia)) as E2.
    pose proof (Z.mod_pos_bound (len - 1) 8 ltac:(lia)) as B2.
    destruct (Z.eqb_spec ((i + 1) mod 8) 0) as [Hmod | Hmod].
    + assert (Hq : (i + 1) / 8 = i / 8 + 1) by lia.
      destruct (Z.ltb_spec i (len - 1)) as [Hlt | Hge]; cbn [andb flat_map app].
      * rewrite (pages_from_to_cons (i / 8 + 1)) by lia. now rewrite Hq.
      * rewrite !pages_from_to_nil by lia. reflexivity.
    + assert (Hq : (i + 1) / 8 = i / 8) by lia.
      cbn [andb flat_map app]. now rewrite Hq.
Qed.

Lemma ad_position (games : list Game) (i len : Z)
    (before after : list GameListView.grid_item) (adIndex : Z) :
  0 <= i -> i + Z.of_nat (length games) = len ->
  GameListView.insert_ads i len games = (before ++ GameListView.Ad adIndex :: after)%list ->
  i + Z.of_nat (length (cards_of before)) = 8 * adIndex /\ cards_of after <> [].
Proof.
  revert i before. induction games as [| game rest IH]; intros i before Hi Hlen E.
  - destruct before; discriminate E.
  - cbn [length] in Hlen. cbn [GameListView.insert_ads] in E.
    destruct before as [| item before]; [discriminate E |].
    cbn [app] in E. injection E as <- E.
    change (cards_of (GameListView.Card game :: before)) with (game :: cards_of before).
    cbn [length].
    destruct (Z.eqb_spec ((i + 1) mod 8) 0) as [Hmod | Hmod];
      [destruct (Z.ltb_spec i (len - 1)) as [Hlt | Hge] |]; cbn [andb app] in E.
    + destruct before as [| item before].
      * cbn [app] in E. injection E as <- E. cbn [cards_of flat_map length].
        pose proof (Z.div_mod (i + 1) 8 ltac:(lia)) as E1.
        pose proof (Z.div_mod i 8 ltac:(lia)) as E0.
        pose proof (Z.mod_pos_bound i 8 ltac:(lia)) as B0.
        split; [lia |].
        rewrite <- E, cards_of_insert_ads.
        destruct rest; [cbn [length] in Hlen; lia | discriminate].
      * cbn [app] in E. injection E as <- E.
        destruct (IH (i + 1) before ltac:(lia) ltac:(lia) E) as [Hpos Hafter].
        change (cards_of (GameListView.Ad (i / 8 + 1) :: before)) with (cards_of before).
        split; [lia | exact Hafter].
    + destruct (IH (i + 1) before ltac:(lia) ltac:(lia) E) as [Hpos Hafter].
      split; [lia | exact Hafter].
    + destruct (IH (i + 1) before ltac:(lia) ltac:(lia) E) as [Hpos Hafter].
      split; [lia | exact Hafter].
Qed.

(** X24. The grid of a page keeps the games in their order and puts ad
    number m after the first 8m of them, for every m with more games to
    follow: the ads are numbered 1, 2, ... up to (n - 1) / 8 for n games,
    each ad has exactly 8m games before it, and at least one game comes
    after it, so that the grid never ends with an ad. *)
Theorem insertInContentAds_layout (games : list Game) :
  let items := GameListView.insertInContentAds games in
  cards_of items = games /\
  ads_of items =
    GameListView.pages_from_to 1 ((Z.of_nat (length games) - 1) / 8) /\
  (forall before adIndex after,
     items = (before ++ GameListView.Ad adIndex :: after)%list ->
     Z.of_nat (length (cards_of before)) = 8 * adIndex /\ cards_of after <> []).
Proof.
  cbn zeta. unfold GameListView.insertInContentAds. split; [| split].
  - apply cards_of_insert_ads.
  - now rewrite ads_of_insert_ads by lia.
  - intros before adIndex after E.
    destruct (ad_position games 0 _ before after adIndex ltac:(lia) eq_refl E) as [H1 H2].
    split; [lia | exact H2].
Qed.

Lemma renderRatingStars_finite (q : Q) :
  let full := Qfloor q in
  let half := Qle_bool (1 # 2) (q - inject_Z (Num.trunc q)) in
  GameListView.renderRatingStars (Fin q) =
  Some (repeat GameListView.FullStar (Z.to_nat full) ++
        (if half then [GameListView.HalfStar] else []) ++
        repeat GameListView.EmptyStar
          (Z.to_nat (5 - full - (if half then 1 else 0))))%list.
Proof.
  cbn zeta. unfold GameListView.renderRatingStars.
  cbn [GameListView.Math_floor GameListView.remainder_1 Num.geb Num.leb Num.sub
       GameListView.loop_turns].
  rewrite Qceiling_Z.
  replace (Qceiling (5 - inject_Z (Qfloor q) -
                     (if Qle_bool (1 # 2) (q - inject_Z (Num.trunc q)) then 1 else 0)))
    with (5 - Qfloor q - (if Qle_bool (1 # 2) (q - inject_Z (Num.trunc q)) then 1 else 0));
    [reflexivity |].
  rewrite <- (Qceiling_Z (5 - Qfloor q - _)).
  apply Qceiling_comp.
  destruct (Qle_bool _ _); unfold Qeq; cbn; lia.
Qed.

Lemma Qfloor_lt_Z (q : Q) (z : Z) : (q < inject_Z z)%Q <-> Qfloor q < z.
Proof.
  split; intros H.
  - rewrite Zlt_Qlt. apply Qle_lt_trans with (2 := H). apply Qfloor_le.
  - apply Qlt_le_trans with (1 := Qlt_floor q). rewrite <- Zle_Qle. lia.
Qed.

(** X25. The stars drawn for a rating: a finite rating gives at least five
    stars, and exactly five if and only if it lies in [0, 5.5).  For NaN no
    star is drawn, and for an infinite rating the loop does not end. *)
Theorem renderRatingStars_five (q : Q) :
  (exists stars,
     GameListView.renderRatingStars (Fin q) = Some stars /\
     (5 <= length stars)%nat /\
     (length stars = 5%nat <-> 0 <= q < 11 # 2)%Q) /\
  GameListView.renderRatingStars NaN = Some [] /\
  (forall negative, GameListView.renderRatingStars (Inf negative) = None).
Proof.
  split; [| split; [reflexivity | intros []; reflexivity]].
  eexists. split; [apply renderRatingStars_finite |].
  rewrite !length_app, !repeat_length.
  split.
  { destruct (Qle_bool (1 # 2) (q - inject_Z (Num.trunc q))); cbn [length]; lia. }
  pose proof (Qfloor_le q) as Hlo.
  unfold Num.trunc.
  destruct (Qle_bool 0 q) eqn:Hsign.
  - apply Qle_bool_iff in Hsign.
    assert (Hf : 0 <= Qfloor q).
    { change 0 with (Qfloor 0). now apply Qfloor_resp_le. }
    destruct (Qle_bool (1 # 2) (q - inject_Z (Qfloor q))) eqn:Hhalf; cbn [length].
    + apply Qle_bool_iff in Hhalf. split.
      * intros Hlen. assert (Hfour : Qfloor q < 5) by lia.
        apply Qfloor_lt_Z in Hfour. change (inject_Z 5) with 5%Q in Hfour.
        split; [exact Hsign | lra].
      * intros [_ Hq].
        assert (Hfour : Qfloor q < 5).
        { rewrite Zlt_Qlt. change (inject_Z 5) with 5%Q. lra. }
        lia.
    + assert (Hnot : ~ (1 # 2 <= q - inject_Z (Qfloor q))%Q).
      { intros H. apply Qle_bool_iff in H. congruence. }
      apply Qnot_le_lt in Hnot. split.
      * intros Hlen. assert (Hfive : Qfloor q <= 5) by lia.
        rewrite Zle_Qle in Hfive. change (inject_Z 5) with 5%Q in Hfive.
        split; [exact Hsign | lra].
      * intros [_ Hq].
        assert (Hsix : Qfloor q < 6).
        { apply Qfloor_lt_Z. change (inject_Z 6) with 6%Q. lra. }
        lia.
  - assert (Hneg : (q < 0)%Q).
    { apply Qnot_le_lt. intros H. apply Qle_bool_iff in H. congruence. }
    assert (Hf : Qfloor q < 0).
    { apply Qfloor_lt_Z. exact Hneg. }
    pose proof (Qle_ceiling q) as Hc.
    destruct (Qle_bool (1 # 2) (q - inject_Z (Qceiling q))) eqn:Hhalf.
    + apply Qle_bool_iff in Hhalf. lra.
    + cbn [length]. split; [lia | intros [H _]; lra].
Qed.

(** ** The search filter and its pending search *)

Lemma triggerFilter_fields (s : SearchFilter.t) :
  let s' := SearchFilter.triggerFilter s in
  SearchFilter.debouncedSearch s' = SearchFilter.debouncedSearch s /\
  SearchFilter.timers s' = SearchFilter.timers s /\
  SearchFilter.onFilterCallback s' = SearchFilter.onFilterCallback s /\
  SearchFilter.currentGenre s' = SearchFilter.currentGenre s /\
  SearchFilter.searchInput_value s' = SearchFilter.searchInput_value s /\
  SearchFilter.currentSearchQuery s' = SearchFilter.currentSearchQuery s.
Proof.
  cbn zeta. unfold SearchFilter.triggerFilter.
  destruct (SearchFilter.onFilterCallback s) eqn:E; cbn; auto 10.
Qed.

Lemma triggerFilter_calls (s : SearchFilter.t) :
  SearchFilter.onFilterCallback s = true ->
  SearchFilter.filterCalls (SearchFilter.triggerFilter s) =
  (SearchFilter.filterCalls s ++
   [(SearchFilter.currentSearchQuery s, SearchFilter.currentGenre s)])%list.
Proof. intros E. unfold SearchFilter.triggerFilter. now rewrite E. Qed.

Lemma performSearch_fields (s : SearchFilter.t) (query : string) :
  let s' := SearchFilter.performSearch s query in
  SearchFilter.debouncedSearch s' = SearchFilter.debouncedSearch s /\
  SearchFilter.timers s' = SearchFilter.timers s /\
  SearchFilter.onFilterCallback s' = SearchFilter.onFilterCallback s /\
  SearchFilter.currentGenre s' = SearchFilter.currentGenre s /\
  SearchFilter.searchInput_value s' = SearchFilter.searchInput_value s.
Proof.
  cbn zeta. unfold SearchFilter.performSearch.
  destruct (triggerFilter_fields
              (SearchFilter.set_filters s (SearchFilter.searchInput_value s)
                 (Str.trim query) (SearchFilter.currentGenre s)))
    as (-> & -> & -> & -> & -> & _).
  cbn. auto.
Qed.

Lemma searches_fields (queries : list string) (s : SearchFilter.t) :
  let s' := fold_left SearchFilter.performSearch queries s in
  SearchFilter.debouncedSearch s' = SearchFilter.debouncedSearch s /\
  SearchFilter.timers s' = SearchFilter.timers s /\
  SearchFilter.onFilterCallback s' = SearchFilter.onFilterCallback s /\
  SearchFilter.currentGenre s' = SearchFilter.currentGenre s /\
  SearchFilter.searchInput_value s' = SearchFilter.searchInput_value s.
Proof.
  revert s. induction queries as [| q queries IH]; intros s; cbn zeta; [cbn; auto |].
  cbn [fold_left].
  destruct (IH (SearchFilter.performSearch s q)) as (-> & -> & -> & -> & ->).
  apply performSearch_fields.
Qed.

Lemma filter_run_until_fields (s : SearchFilter.t) (now : Z) :
  let s' := SearchFilter.run_until s now in
  SearchFilter.debouncedSearch s' = SearchFilter.debouncedSearch s /\
  SearchFilter.timers s' = Debouncer.run_until (SearchFilter.timers s) now /\
  SearchFilter.onFilterCallback s' = SearchFilter.onFilterCallback s /\
  SearchFilter.currentGenre s' = SearchFilter.currentGenre s /\
  SearchFilter.searchInput_value s' = SearchFilter.searchInput_value s.
Proof.
  cbn zeta. unfold SearchFilter.run_until.
  match goal with
  | |- context [fold_left _ ?qs ?s0] =>
      destruct (searches_fields qs s0) as (-> & -> & -> & -> & ->)
  end.
  cbn. auto.
Qed.




Lemma filter_run_until_ready (s : SearchFilter.t) (now : Z) :
  filter_ready s -> filter_ready (SearchFilter.run_until s now).
Proof.
  intros (Hs & Hd & Hcb). unfold filter_ready.
  destruct (filter_run_until_fields s now) as (-> & -> & -> & _).
  split; [now apply run_until_single_slot | auto].
Qed.

Lemma on_input_pending (s : SearchFilter.t) (now : Z) (text : string) :
  filter_ready s ->
  let s' := SearchFilter.on_input (SearchFilter.run_until s now) now text in
  filter_ready s' /\
  (exists id, Debouncer.pending (SearchFilter.timers s') =
              [(id, now + SearchFilter.debounceDelay, text)]) /\
  SearchFilter.searchInput_value s' = text /\
  SearchFilter.currentGenre s' = SearchFilter.currentGenre s /\
  SearchFilter.currentSearchQuery s' =
    SearchFilter.currentSearchQuery (SearchFilter.run_until s now) /\
  SearchFilter.filterCalls s' = SearchFilter.filterCalls (SearchFilter.run_until s now).
Proof.
  intros (Hs & Hd & Hcb). cbn zeta.
  destruct (filter_run_until_fields s now) as (Ed & Et & Ecb & Eg & _).
  unfold SearchFilter.on_input, SearchFilter.handleSearchInput.
  cbn [SearchFilter.set_filters SearchFilter.debouncedSearch SearchFilter.timers
       SearchFilter.searchInput_value SearchFilter.currentSearchQuery
       SearchFilter.currentGenre SearchFilter.onFilterCallback SearchFilter.filterCalls].
  rewrite Ed, Et, Ecb, Eg.
  pose proof (execute_single_slot _ _ now text Hs) as He.
  destruct (Debouncer.execute (SearchFilter.debouncedSearch s)
              (Debouncer.run_until (SearchFilter.timers s) now) now text) as [d' l'].
  destruct He as (Hd' & _ & Hp' & Hi').
  cbn. unfold filter_ready. cbn.
  rewrite Hd in Hp'. change (Z.max 0 SearchFilter.debounceDelay) with SearchFilter.debounceDelay in Hp'.
  split; [| split; [eauto | auto]].
  split; [right; eauto | split; [congruence | exact Hcb]].
Qed.

Lemma listen_ready (s : SearchFilter.t) (now : Z) (e : SearchFilter.event) :
  filter_ready s -> filter_ready (SearchFilter.listen s now e).
Proof.
  intros Hs. unfold SearchFilter.listen. destruct e as [text | | genre].
  - apply (on_input_pending s now text Hs).
  - pose proof (filter_run_until_ready s now Hs) as Hr. revert Hr.
    unfold filter_ready, SearchFilter.clearSearch.
    match goal with
    | |- context [SearchFilter.triggerFilter ?x] =>
        destruct (triggerFilter_fields x) as (-> & -> & -> & _)
    end.
    cbn. auto.
  - pose proof (filter_run_until_ready s now Hs) as Hr. revert Hr.
    unfold filter_ready, SearchFilter.handleGenreChange.
    match goal with
    | |- context [SearchFilter.triggerFilter ?x] =>
        destruct (triggerFilter_fields x) as (-> & -> & -> & _)
    end.
    cbn. auto.
Qed.

Lemma filter_after_ready (text : string) (history : list (Z * SearchFilter.event)) :
  filter_ready (filter_after text history).
Proof.
  unfold filter_after.
  assert (H0 : filter_ready (SearchFilter.onFilter (SearchFilter.new text))).
  { unfold filter_ready. cbn. split; [now left | auto]. }
  revert H0. generalize (SearchFilter.onFilter (SearchFilter.new text)).
  induction history as [| [now e] history IH]; intros s Hs; [exact Hs |].
  cbn [fold_left fst snd]. apply IH. now apply listen_ready.
Qed.


Section ResetShowsAll.

Context {host : Host}.

(** X27. Resetting the filters asks for the whole catalogue.  After
    [resetFilters] the input is empty and the callback has been called with
    the empty query and the genre "all"; the view answers such a call with
    an [advancedSearch] that returns the catalogue as it is, every game and
    in the same order. *)
Theorem reset_asks_for_everything (text : string)
    (history : list (Z * SearchFilter.event)) (games : list Game) :
  let s := SearchFilter.resetFilters (filter_after text history) in
  SearchFilter.searchInput_value s = "" /\
  (exists earlier, SearchFilter.filterCalls s = (earlier ++ [("", "all")])%list) /\
  advancedSearch games (GameListView.filters_of "" "all" no_filters) = Ok games.
Proof.
  pose proof (filter_after_ready text history) as (_ & _ & Hcb).
  cbn zeta. unfold SearchFilter.resetFilters.
  rewrite triggerFilter_calls by exact Hcb.
  match goal with
  | |- context [SearchFilter.triggerFilter ?x] =>
      destruct (triggerFilter_fields x) as (_ & _ & _ & _ & -> & _)
  end.
  cbn [SearchFilter.set_filters SearchFilter.searchInput_value
       SearchFilter.currentSearchQuery SearchFilter.currentGenre SearchFilter.filterCalls].
  split; [reflexivity |]. split; [eauto |]. reflexivity.
Qed.

End ResetShowsAll.

(** ** The properties on examples

    The examples run on [example_host]. *)

#[local] Existing Instance example_host.

Lemma cache_round_trip_witness :
  getCachedData (setCachedData empty_storage scenario 1000) 2000 =
  (Some (VArr (List.map Game_toJSON scenario)), setCachedData empty_storage scenario 1000).
Proof.
  apply (cache_round_trip empty_storage scenario 1000 2000
           eq_refl eq_refl).
  unfold cacheTTL. lia.
Defined.

Lemma corrupt_cache_purged_witness :
  getCachedData corrupt_storage 2000 = (None, clearCache corrupt_storage).
Proof.
  refine (proj1 (corrupt_cache_purged corrupt_storage 2000 "{"
                   (Decimal 1000) eq_refl _ _ _ eq_refl eq_refl)).
  - vm_compute. reflexivity.
  - vm_compute. reflexivity.
  - discriminate.
Defined.

Lemma unreadable_timestamp_never_expires_witness :
  getCachedData unstamped_storage 999999999999 =
  (Some (VArr (List.map Game_toJSON scenario)), unstamped_storage).
Proof.
  refine (unreadable_timestamp_never_expires unstamped_storage
            (Stringified scenario) (Raw "soon") _ eq_refl _ _ eq_refl eq_refl eq_refl
            eq_refl 999999999999).
  - vm_compute. reflexivity.
  - vm_compute. reflexivity.
Defined.

Lemma loader_keeps_other_keys_witness :
  items (storage (snd (loadGames new_Manager themed_world 1000
                         (document [dated_row])))) !! "theme" = Some (Raw "dark").
Proof.
  refine (eq_trans
            (proj1 (loader_keeps_other_keys new_Manager themed_world
                      1000 (document [dated_row]) "theme" _)) _).
  - split; discriminate.
  - vm_compute. reflexivity.
Defined.


Lemma loadGames_rejects_document_witness :
  exists cause,
    loadGames new_Manager fresh_world 1000
      (document [dated_row; VObj []]) =
    (Throw (GameDataError cause), new_Manager,
     {| storage := snd (getCachedData (storage fresh_world) 1000);
        fetches := 1 |}).
Proof.
  destruct (loadGames_rejects_document new_Manager fresh_world 1000
              [dated_row; VObj []] (VObj []) missing_fields eq_refl eq_refl
              (or_intror (or_introl eq_refl)) eq_refl)
    as (cause & bad & _ & _ & H).
  exists cause. exact H.
Defined.

Lemma refreshData_fetches_witness :
  fetches (snd (refreshData loaded fresh_world 1000
                  (document [dated_row]))) = 1%nat.
Proof.
  destruct (refreshData loaded fresh_world 1000
              (document [dated_row])) as [[r m1] w1] eqn:E.
  exact (proj1 (refreshData_fetches _ _ _ _ _ _ _ E)).
Defined.

Lemma loadGames_from_cache_witness :
  loadGames new_Manager
    {| storage := setCachedData empty_storage scenario 1000; fetches := 0 |} 2000
    (Rejected TypeError) =
  (Ok (Plain (VArr (List.map Game_toJSON scenario))),
   {| games := Plain (VArr (List.map Game_toJSON scenario)); isLoaded := true |},
   {| storage := setCachedData empty_storage scenario 1000; fetches := 0 |}).
Proof.
  apply (loadGames_from_cache new_Manager empty_storage 0 scenario
           1000 2000 (Rejected TypeError) eq_refl eq_refl eq_refl).
  unfold cacheTTL. lia.
Defined.

Lemma getGameById_first_witness :
  exists r,
    getGameById loaded fresh_world 1000 (Rejected TypeError) "a" =
    (Ok r, loaded, fresh_world).
Proof.
  destruct (proj1 (getGameById_first loaded fresh_world 1000
                     (Rejected TypeError) "a" loaded fresh_world) scenario eq_refl)
    as (r & H & _).
  exists r. exact H.
Defined.


Lemma getGenres_sorted_unique_witness :
  exists names,
    getGenres scenario = Ok (List.map VStr names) /\
    StronglySorted str_lt names.
Proof.
  destruct (getGenres_sorted_unique scenario) as (names & H1 & H2 & _).
  - repeat constructor; eexists; reflexivity.
  - exists names. split; assumption.
Defined.

Lemma typed_rows_searchable_witness :
  exists games result,
    mapM (new_Game) [VObj space_raiders] = Ok games /\
    advancedSearch games puzzles_rated = Ok result.
Proof.
  destruct (mapM (new_Game) [VObj space_raiders])
    as [games | e] eqn:E; [| vm_compute in E; discriminate E].
  assert (Htyped : Forall row_typed [VObj space_raiders]).
  { constructor; [| constructor]. unfold row_typed. cbn.
    repeat split; try (eexists; reflexivity); try (left; left; reflexivity).
    - intros items H. injection H as <-. repeat constructor. eexists. reflexivity.
    - intros items H. discriminate H. }
  destruct (typed_rows_searchable _ games Htyped E) as [_ H].
  destruct (H puzzles_rated) as [result Hr].
  exists games, result. split; [reflexivity | exact Hr].
Defined.

Lemma fullDescription_default_witness :
  exists g,
    new_Game (VObj space_raiders) = Ok g /\
    Game.fullDescription g = Game.description g.
Proof.
  destruct (new_Game (VObj space_raiders)) as [g | e] eqn:E;
    [| vm_compute in E; discriminate E].
  exists g. split; [reflexivity |].
  rewrite (fullDescription_default _ g E). reflexivity.
Defined.



Lemma searchGames_query_normal_witness :
  searchGames scenario " Space " =
  searchGames scenario "space".
Proof.
  apply (searchGames_query_normal scenario " Space " "space").
  reflexivity.
Defined.

Lemma sortGames_defaults_witness :
  sortGames scenario "price" "asc" = Ok scenario.
Proof.
  apply (proj1 (sortGames_defaults scenario "price" "asc"));
    discriminate.
Defined.

Lemma loading_indicator_stays_witness :
  GameListView.container
    (view_after [LoadGames (Ok scenario); GoToPage 1]) =
  GameListView.Loading.
Proof.
  apply (loading_indicator_stays
           [LoadGames (Ok scenario); GoToPage 1]).
  repeat constructor.
Defined.

Lemma pagination_bar_witness :
  active_pages (GameListView.renderPagination three_pages) = [2].
Proof.
  destruct (pagination_bar three_pages) as (first & last & _ & _ & _ & _ & _ & _ & H & _).
  - vm_compute. discriminate.
  - split; vm_compute; discriminate.
  - exact H.
Defined.

